(** * CSS section extraction and line-range replacement

    A shallow embedding of the CSS parser module of the design token
    server ([extractThemeBlocks], [replaceLines], [extractMainThemeBlock],
    [extractDesignTokenSection]) together with the JavaScript string and
    array primitives these functions call, and the properties of the
    line-oriented scanner and splicer proved about them.  It is followed
    by the code around the parser: [cleanMarkdownFormatting] and
    [updateTokenSection] of the merger, the GitHub client, and
    [processUpdate] of the workflow, whose calls to GitHub and to the
    completion API are events answered by a world. *)

From Stdlib Require Import String Ascii DecimalString.
From Stdlib Require Import List ZArith NArith Bool Lia.
Import ListNotations.

Local Open Scope Z_scope.

(** ** JavaScript strings

    A JavaScript string is a finite sequence of UTF-16 code units.  A code
    unit is kept as an [N]; the functions below never look at the width. *)

Module JS.

Definition char := N.
Definition jsstring := list char.

(** A literal of the source, written as a Rocq string. *)
Definition lit (s : string) : jsstring :=
  map N_of_ascii (list_ascii_of_string s).

Definition NL : char := 10%N.
Definition LBRACE : char := 123%N.
Definition RBRACE : char := 125%N.

(** ECMAScript WhiteSpace and LineTerminator code points, the characters
    [String.prototype.trim] strips. *)
Definition isWhiteSpace (c : char) : bool :=
  ((c =? 9) || (c =? 10) || (c =? 11) || (c =? 12) || (c =? 13) || (c =? 32)
   || (c =? 160) || (c =? 5760)
   || ((8192 <=? c) && (c <=? 8202))
   || (c =? 8232) || (c =? 8233) || (c =? 8239) || (c =? 8287)
   || (c =? 12288) || (c =? 65279))%N.

Fixpoint trimStart (s : jsstring) : jsstring :=
  match s with
  | [] => []
  | c :: s' => if isWhiteSpace c then trimStart s' else s
  end.

Definition trimEnd (s : jsstring) : jsstring := rev (trimStart (rev s)).

(** [s.trim()] *)
Definition trim (s : jsstring) : jsstring := trimEnd (trimStart s).

(** [s.startsWith(p)] *)
Fixpoint startsWith (s p : jsstring) : bool :=
  match p, s with
  | [], _ => true
  | _ :: _, [] => false
  | a :: p', c :: s' => (c =? a)%N && startsWith s' p'
  end.

(** [s.includes(p)] *)
Fixpoint includes (s p : jsstring) : bool :=
  startsWith s p ||
  match s with
  | [] => false
  | _ :: s' => includes s' p
  end.

(** [(s.match(/c/g) || []).length] for a one-character pattern [c]: the
    number of occurrences of [c] in [s]. *)
Fixpoint matchCount (c : char) (s : jsstring) : Z :=
  match s with
  | [] => 0
  | d :: s' => (if (d =? c)%N then 1 else 0) + matchCount c s'
  end.

(** [s.split(sep)] for a one-character separator: always at least one
    piece, and one more piece than there are separators. *)
Definition consHead (c : char) (pieces : list jsstring) : list jsstring :=
  match pieces with
  | [] => [[c]]
  | p :: ps => (c :: p) :: ps
  end.

Fixpoint split (sep : char) (s : jsstring) : list jsstring :=
  match s with
  | [] => [[]]
  | c :: s' => if (c =? sep)%N then [] :: split sep s'
               else consHead c (split sep s')
  end.

(** [a.join(sep)] on an array of strings. *)
Fixpoint join (sep : jsstring) (a : list jsstring) : jsstring :=
  match a with
  | [] => []
  | x :: a' =>
      match a' with
      | [] => x
      | _ :: _ => x ++ sep ++ join sep a'
      end
  end.

(** [a.slice(start, end)] with the relative-index rules of
    [Array.prototype.slice]: a negative index counts from the end, and both
    indices are clamped to [0 .. a.length]. *)
Definition relIndex (len i : Z) : Z :=
  if i <? 0 then Z.max (len + i) 0 else Z.min i len.

Definition slice {A : Type} (a : list A) (start end_ : Z) : list A :=
  let len := Z.of_nat (length a) in
  let k := relIndex len start in
  let final := relIndex len end_ in
  firstn (Z.to_nat (final - k)) (skipn (Z.to_nat k) a).

(** [a.slice(start)]: the end defaults to [a.length]. *)
Definition sliceFrom {A : Type} (a : list A) (start : Z) : list A :=
  slice a start (Z.of_nat (length a)).

(** Number-to-string conversion of a template literal, for an integer of
    magnitude below 2^53: its decimal digits.  (Larger numbers are not all
    integers a JavaScript number can hold, and from 10^21 on they print in
    exponent notation; [showZ] says nothing faithful about them.) *)
Definition showZ (z : Z) : jsstring :=
  lit (NilZero.string_of_int (Z.to_int z)).

End JS.

Import JS.

(** ** The CSS parser module *)

Definition newline : jsstring := [NL].

(** The net brace count of one line: occurrences of [{] minus occurrences
    of [}], as the two [match] counts of the source compute it. *)
Definition braceDelta (line : jsstring) : Z :=
  matchCount LBRACE line - matchCount RBRACE line.

(** *** replaceLines *)

(** The [Error] thrown by [replaceLines]; its message interpolates the two
    bounds and the number of lines of the document. *)
Record RangeError := mkRangeError {
  errStartLine : Z;
  errEndLine : Z;
  errTotalLines : Z
}.

Definition errorMessage (e : RangeError) : jsstring :=
  lit "Invalid line range: " ++ showZ (errStartLine e) ++ lit "-"
    ++ showZ (errEndLine e) ++ lit " (total lines: "
    ++ showZ (errTotalLines e) ++ lit ")".

Inductive result (A : Type) : Type :=
| Ok (value : A)
| Throw (e : RangeError).
Arguments Ok {A} value.
Arguments Throw {A} e.

Definition lineCount (content : jsstring) : Z :=
  Z.of_nat (length (split NL content)).

Definition replaceLines (originalContent : jsstring) (startLine endLine : Z)
    (newContent : jsstring) : result jsstring :=
  let lines := split NL originalContent in
  if (startLine <? 1) || (endLine >? Z.of_nat (length lines))
       || (startLine >? endLine)
  then Throw (mkRangeError startLine endLine (Z.of_nat (length lines)))
  else
    let newLines := split NL newContent in
    let before := slice lines 0 (startLine - 1) in
    let after := sliceFrom lines endLine in
    Ok (join newline (before ++ newLines ++ after)).

(** *** extractThemeBlocks *)

(** The block labels ['theme'] and ['theme inline']. *)
Inductive ThemeLabel := LTheme | LThemeInline.

Definition ThemeLabel_eqb (a b : ThemeLabel) : bool :=
  match a, b with
  | LTheme, LTheme | LThemeInline, LThemeInline => true
  | _, _ => false
  end.

(** An element of the array returned by [extractThemeBlocks]. *)
Module Block.
Record t := mk {
  type : option ThemeLabel;
  startLine : Z;
  endLine : Z;
  content : jsstring
}.
End Block.

(** The local variables of [extractThemeBlocks]. *)
Module Scan.
Record t := mk {
  blocks : list Block.t;
  inBlock : bool;
  blockType : option ThemeLabel;
  blockStartLine : Z;
  blockContent : list jsstring;
  braceDepth : Z
}.

Definition init : t := mk [] false None (-1) [] 0.
End Scan.

(** One iteration of the loop of [extractThemeBlocks] on line [line],
    numbered [lineNumber]. *)
Definition themeBlocksStep (st : Scan.t) (lineNumber : Z) (line : jsstring)
    : Scan.t :=
  if negb (Scan.inBlock st) && startsWith (trim line) (lit "@theme") then
    Scan.mk (Scan.blocks st) true
      (Some (if includes line (lit "inline") then LThemeInline else LTheme))
      lineNumber [line]
      (0 + matchCount LBRACE line - matchCount RBRACE line)
  else if Scan.inBlock st then
    let blockContent := Scan.blockContent st ++ [line] in
    let braceDepth :=
      Scan.braceDepth st + matchCount LBRACE line - matchCount RBRACE line in
    if (braceDepth =? 0) && (1 <? Z.of_nat (length blockContent)) then
      Scan.mk
        (Scan.blocks st ++
           [Block.mk (Scan.blockType st) (Scan.blockStartLine st) lineNumber
              (join newline blockContent)])
        false None (Scan.blockStartLine st) [] braceDepth
    else
      Scan.mk (Scan.blocks st) (Scan.inBlock st) (Scan.blockType st)
        (Scan.blockStartLine st) blockContent braceDepth
  else st.

(** The [for] loop from index [i] on, over the lines not yet visited. *)
Fixpoint themeBlocksLoop (lines : list jsstring) (i : Z) (st : Scan.t)
    : Scan.t :=
  match lines with
  | [] => st
  | line :: rest => themeBlocksLoop rest (i + 1) (themeBlocksStep st (i + 1) line)
  end.

Definition extractThemeBlocks (cssContent : jsstring) : list Block.t :=
  let lines := split NL cssContent in
  Scan.blocks (themeBlocksLoop lines 0 Scan.init).

(** [blocks.find(block => block.type === 'theme') || null] *)
Definition extractMainThemeBlock (cssContent : jsstring) : option Block.t :=
  find (fun block =>
          match Block.type block with
          | Some l => ThemeLabel_eqb l LTheme
          | None => false
          end)
       (extractThemeBlocks cssContent).

(** *** extractDesignTokenSection *)

(** The values of [currentBlockType] other than [null]. *)
Inductive BlockKind := KTheme | KRoot | KDarkTheme.

Definition isDarkTheme (k : option BlockKind) : bool :=
  match k with
  | Some KDarkTheme => true
  | _ => false
  end.

(** The local variables of [extractDesignTokenSection]. *)
Module Loc.
Record t := mk {
  themeStartLine : Z;
  rootStartLine : Z;
  darkThemeStartLine : Z;
  darkThemeEndLine : Z;
  inBlock : bool;
  braceDepth : Z;
  currentBlockType : option BlockKind
}.

Definition init : t := mk (-1) (-1) (-1) (-1) false 0 None.
End Loc.

(** How an iteration of the loop ends: it falls through or [continue]s to
    the next line, or it [break]s out of the loop. *)
Inductive control :=
| Continue (st : Loc.t)
| Break (st : Loc.t).

Definition isThemeAnchor (trimmedLine : jsstring) : bool :=
  startsWith trimmedLine (lit "@theme")
  && negb (includes trimmedLine (lit "inline")).

Definition isRootAnchor (trimmedLine : jsstring) : bool :=
  startsWith trimmedLine (lit ":root").

Definition isDarkThemeAnchor (trimmedLine : jsstring) : bool :=
  startsWith trimmedLine (lit ".dark-theme").

(** One iteration of the loop of [extractDesignTokenSection]. *)
Definition sectionStep (st : Loc.t) (lineNumber : Z) (line : jsstring)
    : control :=
  let trimmedLine := trim line in
  if (Loc.themeStartLine st =? -1) && isThemeAnchor trimmedLine then
    Continue (Loc.mk lineNumber (Loc.rootStartLine st)
                (Loc.darkThemeStartLine st) (Loc.darkThemeEndLine st)
                true (0 + matchCount LBRACE line - matchCount RBRACE line)
                (Some KTheme))
  else if (Loc.rootStartLine st =? -1) && isRootAnchor trimmedLine then
    Continue (Loc.mk (Loc.themeStartLine st) lineNumber
                (Loc.darkThemeStartLine st) (Loc.darkThemeEndLine st)
                true (0 + matchCount LBRACE line - matchCount RBRACE line)
                (Some KRoot))
  else if isDarkThemeAnchor trimmedLine then
    Continue (Loc.mk (Loc.themeStartLine st) (Loc.rootStartLine st)
                lineNumber (Loc.darkThemeEndLine st)
                true (0 + matchCount LBRACE line - matchCount RBRACE line)
                (Some KDarkTheme))
  else if Loc.inBlock st then
    let braceDepth :=
      Loc.braceDepth st + matchCount LBRACE line - matchCount RBRACE line in
    if braceDepth =? 0 then
      if isDarkTheme (Loc.currentBlockType st) then
        Break (Loc.mk (Loc.themeStartLine st) (Loc.rootStartLine st)
                 (Loc.darkThemeStartLine st) lineNumber
                 (Loc.inBlock st) braceDepth (Loc.currentBlockType st))
      else
        Continue (Loc.mk (Loc.themeStartLine st) (Loc.rootStartLine st)
                    (Loc.darkThemeStartLine st) (Loc.darkThemeEndLine st)
                    false braceDepth None)
    else
      Continue (Loc.mk (Loc.themeStartLine st) (Loc.rootStartLine st)
                  (Loc.darkThemeStartLine st) (Loc.darkThemeEndLine st)
                  (Loc.inBlock st) braceDepth (Loc.currentBlockType st))
  else Continue st.

(** The [for] loop from index [i] on; a [break] leaves the remaining lines
    unvisited. *)
Fixpoint sectionLoop (lines : list jsstring) (i : Z) (st : Loc.t) : Loc.t :=
  match lines with
  | [] => st
  | line :: rest =>
      match sectionStep st (i + 1) line with
      | Continue st' => sectionLoop rest (i + 1) st'
      | Break st' => st'
      end
  end.

(** The object returned by [extractDesignTokenSection], with its nested
    [blocks] object. *)
Module Anchors.
Record t := mk {
  theme : Z;
  root : Z;
  darkTheme : Z;
  darkThemeEnd : Z
}.
End Anchors.

Module Section_.
Record t := mk {
  startLine : Z;
  endLine : Z;
  content : jsstring;
  blocks : Anchors.t
}.
End Section_.

Definition extractDesignTokenSection (cssContent : jsstring)
    : option Section_.t :=
  let lines := split NL cssContent in
  let st := sectionLoop lines 0 Loc.init in
  if (Loc.themeStartLine st =? -1) || (Loc.darkThemeEndLine st =? -1) then None
  else
    let sectionLines :=
      slice lines (Loc.themeStartLine st - 1) (Loc.darkThemeEndLine st) in
    Some (Section_.mk (Loc.themeStartLine st) (Loc.darkThemeEndLine st)
            (join newline sectionLines)
            (Anchors.mk (Loc.themeStartLine st) (Loc.rootStartLine st)
               (Loc.darkThemeStartLine st) (Loc.darkThemeEndLine st))).

(** [sliceLines D s e]: the newline-joined text of lines [s..e] of [D],
    computed the way [extractDesignTokenSection] computes its [content]. *)
Definition sliceLines (document : jsstring) (s e : Z) : jsstring :=
  join newline (slice (split NL document) (s - 1) e).

(** A line holds no separator. *)
Definition sepFree (sep : char) (p : jsstring) : Prop := ~ In sep p.

(** *** The loop of extractDesignTokenSection, observed

    [sectionPrefix] runs the loop over lines none of which [break]s
    ([None] when one does); [visitedLines] is the part of the array the
    loop visits, the line of the [break] included. *)
Fixpoint sectionPrefix (lines : list jsstring) (i : Z) (st : Loc.t)
    : option Loc.t :=
  match lines with
  | [] => Some st
  | line :: rest =>
      match sectionStep st (i + 1) line with
      | Continue st' => sectionPrefix rest (i + 1) st'
      | Break _ => None
      end
  end.

Fixpoint visitedLines (lines : list jsstring) (i : Z) (st : Loc.t)
    : list jsstring :=
  match lines with
  | [] => []
  | line :: rest =>
      line :: match sectionStep st (i + 1) line with
              | Continue st' => visitedLines rest (i + 1) st'
              | Break _ => []
              end
  end.

(** The state an iteration leaves, whichever way it ends. *)
Definition stateOf (c : control) : Loc.t :=
  match c with
  | Continue st => st
  | Break st => st
  end.

(** Line numbers (1-based, counted from offset [i]) of the first and of
    the last line satisfying [p]; [-1] when there is none. *)
Fixpoint firstMatchFrom (p : jsstring -> bool) (lines : list jsstring) (i : Z)
    : Z :=
  match lines with
  | [] => -1
  | line :: rest => if p line then i + 1 else firstMatchFrom p rest (i + 1)
  end.

Fixpoint lastMatchFrom (p : jsstring -> bool) (lines : list jsstring) (i : Z)
    : Z :=
  match lines with
  | [] => -1
  | line :: rest =>
      let later := lastMatchFrom p rest (i + 1) in
      if later =? -1 then (if p line then i + 1 else -1) else later
  end.

Definition themeLine (line : jsstring) : bool := isThemeAnchor (trim line).
Definition rootLine (line : jsstring) : bool := isRootAnchor (trim line).
Definition darkThemeLine (line : jsstring) : bool :=
  isDarkThemeAnchor (trim line).

(** Line [n] (1-based) of an array of lines. *)
Definition lineAt (lines : list jsstring) (n : Z) : option jsstring :=
  if n <? 1 then None else nth_error lines (Z.to_nat (n - 1)).

(** The array [replaceLines] joins when the range is valid: the lines
    before [s], the lines of the replacement, the lines after [e]. *)
Definition splicedLines (document : jsstring) (s e : Z) (replacement : jsstring)
    : list jsstring :=
  firstn (Z.to_nat (s - 1)) (split NL document)
    ++ split NL replacement
    ++ skipn (Z.to_nat e) (split NL document).

(** What the loop of [extractThemeBlocks] maintains after line [i]: the
    emitted blocks lie within lines [1..i] and span at least two lines, and
    an open block started within lines [1..i]. *)
Definition scanInv (i : Z) (st : Scan.t) : Prop :=
  (forall b, In b (Scan.blocks st) ->
     1 <= Block.startLine b /\ Block.startLine b < Block.endLine b
     /\ Block.endLine b <= i)
  /\ (Scan.inBlock st = true ->
      1 <= Scan.blockStartLine st /\ Scan.blockStartLine st <= i).

(** *** Example documents *)

Definition oneLineTheme : jsstring := lit "@theme { }".
Definition oneLineThemeThenRule : jsstring := lit "@theme { }
.x { }".

Definition fiveLines : jsstring := lit "a
b
c
d
e".

(** The document of the end-to-end scenario, its lines joined by newlines,
    and the same document terminated by a newline. *)
Definition e2eLines : list jsstring :=
  [ lit "@theme {";
    lit "  --color-red: #ff0000;";
    lit "}";
    lit ".unrelated { color: blue; }";
    lit ":root {";
    lit "  --bg: var(--color-red);";
    lit "}";
    lit ".dark-theme {";
    lit "  --bg: #000;";
    lit "}";
    lit ".more-unrelated { color: green; }" ].

Definition e2eDocument : jsstring := join newline e2eLines.
Definition e2eDocumentNL : jsstring := e2eDocument ++ newline.

(** What [extractDesignTokenSection] returns on [e2eDocument]. *)
Definition e2eSection : Section_.t :=
  Section_.mk 1 10 (join newline (firstn 10 e2eLines)) (Anchors.mk 1 5 8 10).


Definition rootOnlyDocument : jsstring := lit ":root { --a: 1; }".

Definition nestedDarkTheme : jsstring := lit "@theme {
}
.dark-theme {
.dark-theme .x {
}
}".

(** What [extractDesignTokenSection] returns on [nestedDarkTheme] and on
    [rootlessDocument]. *)
Definition nestedSection : Section_.t :=
  Section_.mk 1 5
    (join newline
       [lit "@theme {"; lit "}"; lit ".dark-theme {"; lit ".dark-theme .x {";
        lit "}"])
    (Anchors.mk 1 (-1) 4 5).


(** The state of the loop after the single line [@theme {]. *)
Definition insideTheme : Loc.t := Loc.mk 1 (-1) (-1) (-1) true 1 (Some KTheme).

(** *** What the loop of extractThemeBlocks keeps *)

(** The brace depth accumulated over some lines. *)
Fixpoint sumDelta (lines : list jsstring) : Z :=
  match lines with
  | [] => 0
  | line :: rest => braceDelta line + sumDelta rest
  end.

(** The label the anchor branch gives a line. *)
Definition labelOf (line : jsstring) : ThemeLabel :=
  if includes line (lit "inline") then LThemeInline else LTheme.

(** Lines [s..k] (1-based, inclusive) of an array of lines. *)
Definition linesBetween (all : list jsstring) (s k : Z) : list jsstring :=
  skipn (Z.to_nat (s - 1)) (firstn (Z.to_nat k) all).

(** A well-formed emitted block of the document [all]: it starts on an
    [@theme] line, carries the label of that line and the text of its
    lines, and ends on the first later line where the depth is zero. *)
Definition blockOk (all : list jsstring) (b : Block.t) : Prop :=
  1 <= Block.startLine b /\ Block.startLine b < Block.endLine b
  /\ Block.endLine b <= Z.of_nat (length all)
  /\ Block.content b
     = join newline (linesBetween all (Block.startLine b) (Block.endLine b))
  /\ (exists line,
        lineAt all (Block.startLine b) = Some line
        /\ startsWith (trim line) (lit "@theme") = true
        /\ Block.type b = Some (labelOf line))
  /\ sumDelta (linesBetween all (Block.startLine b) (Block.endLine b)) = 0
  /\ (forall k, Block.startLine b < k -> k < Block.endLine b ->
        sumDelta (linesBetween all (Block.startLine b) k) <> 0).

(** The same for the block being accumulated after [i] lines. *)
Definition openOk (all : list jsstring) (i : Z) (st : Scan.t) : Prop :=
  Scan.inBlock st = true ->
  1 <= Scan.blockStartLine st /\ Scan.blockStartLine st <= i
  /\ Scan.blockContent st = linesBetween all (Scan.blockStartLine st) i
  /\ (exists line,
        lineAt all (Scan.blockStartLine st) = Some line
        /\ startsWith (trim line) (lit "@theme") = true
        /\ Scan.blockType st = Some (labelOf line))
  /\ Scan.braceDepth st = sumDelta (Scan.blockContent st)
  /\ (forall k, Scan.blockStartLine st < k -> k <= i ->
        sumDelta (linesBetween all (Scan.blockStartLine st) k) <> 0).

(** Blocks in document order, each after the end [lo] of the one before;
    [lastEnd] is the end of the last one. *)
Fixpoint chain (lo : Z) (bs : list Block.t) : Prop :=
  match bs with
  | [] => True
  | b :: rest =>
      lo < Block.startLine b /\ Block.startLine b < Block.endLine b
      /\ chain (Block.endLine b) rest
  end.

Fixpoint lastEnd (lo : Z) (bs : list Block.t) : Z :=
  match bs with
  | [] => lo
  | b :: rest => lastEnd (Block.endLine b) rest
  end.

Definition scanOk (all : list jsstring) (i : Z) (st : Scan.t) : Prop :=
  Forall (blockOk all) (Scan.blocks st)
  /\ openOk all i st
  /\ chain 0 (Scan.blocks st)
  /\ lastEnd 0 (Scan.blocks st) <= i
  /\ (Scan.inBlock st = true ->
      lastEnd 0 (Scan.blocks st) < Scan.blockStartLine st).

(** An inline theme block followed by the main theme block, and the two
    blocks [extractThemeBlocks] finds in it. *)
Definition twoThemes : jsstring := lit "@theme inline {
}
@theme {
  --a: 1;
}
.x { }".

Definition inlineBlock : Block.t :=
  Block.mk (Some LThemeInline) 1 2 (lit "@theme inline {
}").

Definition mainBlock : Block.t :=
  Block.mk (Some LTheme) 3 5 (lit "@theme {
  --a: 1;
}").

(** What the loop of [extractDesignTokenSection] keeps, after [i] lines
    of the document [all], while the current block is the [.dark-theme]
    one: the depth counts the braces from the recorded [.dark-theme] line
    on, and has not been zero after any later line. *)
Definition darkOpenOk (all : list jsstring) (i : Z) (st : Loc.t) : Prop :=
  Loc.currentBlockType st = Some KDarkTheme ->
  Loc.inBlock st = true
  /\ 1 <= Loc.darkThemeStartLine st /\ Loc.darkThemeStartLine st <= i
  /\ (exists line,
        lineAt all (Loc.darkThemeStartLine st) = Some line
        /\ darkThemeLine line = true)
  /\ Loc.braceDepth st
     = sumDelta (linesBetween all (Loc.darkThemeStartLine st) i)
  /\ (forall k, Loc.darkThemeStartLine st < k -> k <= i ->
        sumDelta (linesBetween all (Loc.darkThemeStartLine st) k) <> 0).

(** *** cleanMarkdownFormatting

    The three [replace] calls use global, multiline regular expressions
    and the empty replacement.  Each pattern is a literal, anchored at the
    start or at the end of a line, and never matches the empty string; so
    [replace] scans the string from left to right, removes a match where
    one starts and resumes after it, and copies the character otherwise.
    In the scans below [skip] counts the characters of the current match
    still to remove. *)

(** The characters [^] and [$] look at in multiline mode. *)
Definition isLineTerminator (c : char) : bool :=
  ((c =? 10) || (c =? 13) || (c =? 8232) || (c =? 8233))%N.

(** The length of a match of the literal [p], then [\n?], at the start of
    [s]; [None] when [p] does not match there. *)
Definition matchLiteralOptNL (p s : jsstring) : option nat :=
  if startsWith s p then
    Some (length p + match skipn (length p) s with
                     | c :: _ => if (c =? NL)%N then 1 else 0
                     | [] => 0
                     end)%nat
  else None.

(** [s.replace(/^p\n?/gm, '')]; [atLineStart] tells whether [^] holds at
    the head of [s]. *)
Fixpoint removeAtLineStart (p : jsstring) (skip : nat) (atLineStart : bool)
    (s : jsstring) : jsstring :=
  match s with
  | [] => []
  | c :: s' =>
      match skip with
      | S k => removeAtLineStart p k (isLineTerminator c) s'
      | O =>
          match (if atLineStart then matchLiteralOptNL p s else None) with
          | Some (S k) => removeAtLineStart p k (isLineTerminator c) s'
          | _ => c :: removeAtLineStart p O (isLineTerminator c) s'
          end
      end
  end.

(** [$] in multiline mode: the end of the string or a line terminator
    next. *)
Definition atLineEnd (s : jsstring) : bool :=
  match s with
  | [] => true
  | c :: _ => isLineTerminator c
  end.

(** [s.replace(/p$/gm, '')] for a literal [p]. *)
Fixpoint removeAtLineEnd (p : jsstring) (skip : nat) (s : jsstring)
    : jsstring :=
  match s with
  | [] => []
  | c :: s' =>
      match skip with
      | S k => removeAtLineEnd p k s'
      | O =>
          if startsWith s p && atLineEnd (skipn (length p) s)
          then removeAtLineEnd p (length p - 1) s'
          else c :: removeAtLineEnd p O s'
      end
  end.

Definition fence : jsstring := lit "```".
Definition cssFence : jsstring := lit "```css".

Definition cleanMarkdownFormatting (text : jsstring) : jsstring :=
  let cleaned := trim text in
  let cleaned := removeAtLineStart cssFence 0 true cleaned in
  let cleaned := removeAtLineStart fence 0 true cleaned in
  let cleaned := removeAtLineEnd fence 0 cleaned in
  trim cleaned.

(** A response wrapped in a code fence, with blanks around it. *)
Definition fenced (opener body : jsstring) : jsstring :=
  opener ++ NL :: body ++ NL :: fence.

Definition fencedReply : jsstring := lit "
```css
@theme { }
```
".

(** *** The collaborators: GitHub and the completion API

    The calls of the workflow to Octokit and to the Anthropic client are
    events: a program awaits a call and goes on with its outcome, a
    resolved response or a rejection.  Console output is not modelled. *)

(** A thrown or rejected error: its [status], when it has one, and its
    [message].  Rejections are taken to be error objects: the [catch] of
    [processUpdate] reads [error.message], which a rejection with [null]
    or [undefined] does not have; such rejections are outside the model. *)
Record JsError := mkError {
  errStatus : option Z;
  errMessage : jsstring
}.

(** [response.data] of [repos.getContent] for a file: its base64
    [content] and its [sha]. *)
Record FileData := mkFileData {
  dataContent : jsstring;
  dataSha : jsstring
}.

(** The fields read from a pull request object. *)
Record PullData := mkPullData {
  pullNumber : Z;
  pullHtmlUrl : jsstring
}.

Inductive call :=
| ReposGetBranch (owner repo branch : jsstring)
| ReposGetContent (owner repo path ref : jsstring)
| GitGetRef (owner repo ref : jsstring)
| GitCreateRef (owner repo ref sha : jsstring)
| ReposCreateOrUpdateFileContents
    (owner repo path message content sha branch : jsstring)
| PullsList (owner repo head base state : jsstring)
| PullsCreate (owner repo title head base body : jsstring)
| MessagesCreate (apiKey model : jsstring) (max_tokens : Z) (content : jsstring).

(** What the workflow reads from the resolved value of each call: nothing,
    the file data, [data.object.sha], the pull requests, the pull request,
    [message.content[0].text]. *)
Definition response (c : call) : Type :=
  match c with
  | ReposGetBranch _ _ _ => unit
  | ReposGetContent _ _ _ _ => FileData
  | GitGetRef _ _ _ => jsstring
  | GitCreateRef _ _ _ _ => unit
  | ReposCreateOrUpdateFileContents _ _ _ _ _ _ _ => unit
  | PullsList _ _ _ _ _ => list PullData
  | PullsCreate _ _ _ _ _ _ => PullData
  | MessagesCreate _ _ _ _ => jsstring
  end.

Inductive outcome (c : call) : Type :=
| Resolved (r : response c)
| Rejected (e : JsError).
Arguments Resolved {c} r.
Arguments Rejected {c} e.

(** An asynchronous computation: it returns, throws, or awaits a call. *)
Inductive prog (A : Type) : Type :=
| Ret (a : A)
| Raise (e : JsError)
| Await (c : call) (k : outcome c -> prog A).
Arguments Ret {A} a.
Arguments Raise {A} e.
Arguments Await {A} c k.

Fixpoint bind {A B : Type} (p : prog A) (k : A -> prog B) : prog B :=
  match p with
  | Ret a => k a
  | Raise e => Raise e
  | Await c k' => Await c (fun o => bind (k' o) k)
  end.

(** [await c]: the resolved value, or the rejection thrown. *)
Definition await (c : call) : prog (response c) :=
  Await c (fun o => match o with
                    | Resolved r => Ret r
                    | Rejected e => Raise e
                    end).

(** [try { p } catch (error) { h error }] *)
Fixpoint tryCatch {A : Type} (p : prog A) (h : JsError -> prog A) : prog A :=
  match p with
  | Ret a => Ret a
  | Raise e => h e
  | Await c k => Await c (fun o => tryCatch (k o) h)
  end.

Notation "x <- p ;; k" := (bind p (fun x => k))
  (at level 61, p at next level, right associativity).

(** [a === b] on strings. *)
Definition strictEq (a b : jsstring) : bool :=
  if list_eq_dec N.eq_dec a b then true else false.

(** The two [Buffer] conversions of the GitHub client, which belong to the
    runtime: [Buffer.from(s, 'base64').toString('utf-8')] and
    [Buffer.from(s).toString('base64')]. *)
Record Runtime := mkRuntime {
  fromBase64 : jsstring -> jsstring;
  toBase64 : jsstring -> jsstring
}.

(** *** GitHubClient *)

Record GitHubClient := mkGitHubClient {
  ghToken : jsstring;
  ghOwner : jsstring;
  ghRepo : jsstring
}.

Definition branchExists (gh : GitHubClient) (branchName : jsstring)
    : prog bool :=
  Await (ReposGetBranch (ghOwner gh) (ghRepo gh) branchName)
    (fun o => match o with
              | Resolved _ => Ret true
              | Rejected error =>
                  match errStatus error with
                  | Some status => if status =? 404 then Ret false
                                   else Raise error
                  | None => Raise error
                  end
              end).

(** The object [{content, sha}] returned by [getFileContent]. *)
Record FileContent := mkFileContent {
  content : jsstring;
  sha : jsstring
}.

Definition getFileContent (rt : Runtime) (gh : GitHubClient)
    (filePath branch : jsstring) : prog FileContent :=
  data <- await (ReposGetContent (ghOwner gh) (ghRepo gh) filePath branch) ;;
  Ret (mkFileContent (fromBase64 rt (dataContent data)) (dataSha data)).

Definition createBranch (gh : GitHubClient) (newBranchName fromBranch : jsstring)
    : prog unit :=
  sha <- await (GitGetRef (ghOwner gh) (ghRepo gh)
                  (lit "heads/" ++ fromBranch)) ;;
  _ <- await (GitCreateRef (ghOwner gh) (ghRepo gh)
                (lit "refs/heads/" ++ newBranchName) sha) ;;
  Ret tt.

Definition updateFile (rt : Runtime) (gh : GitHubClient)
    (filePath content branch sha commitMessage : jsstring) : prog unit :=
  _ <- await (ReposCreateOrUpdateFileContents (ghOwner gh) (ghRepo gh)
                filePath commitMessage (toBase64 rt content) sha branch) ;;
  Ret tt.

(** [{exists: true, number, url}] is [Some], [{exists: false}] is [None]. *)
Definition getPullRequest (gh : GitHubClient) (headBranch baseBranch : jsstring)
    : prog (option (Z * jsstring)) :=
  pulls <- await (PullsList (ghOwner gh) (ghRepo gh)
                    (ghOwner gh ++ lit ":" ++ headBranch) baseBranch
                    (lit "open")) ;;
  match pulls with
  | first :: _ => Ret (Some (pullNumber first, pullHtmlUrl first))
  | [] => Ret None
  end.

Definition createPullRequest (gh : GitHubClient)
    (title headBranch baseBranch body : jsstring) : prog (Z * jsstring) :=
  pr <- await (PullsCreate (ghOwner gh) (ghRepo gh) title headBranch
                 baseBranch body) ;;
  Ret (pullNumber pr, pullHtmlUrl pr).

(** *** updateTokenSection *)

Definition tokenSectionPrompt (oldTokenSection newTokenSection : jsstring)
    : jsstring :=
  lit "You are updating the design token section of a CSS file. This section contains three main blocks:
1. @theme - Primitive color tokens
2. :root - Light mode semantic tokens
3. .dark-theme - Dark mode semantic tokens

CURRENT TOKEN SECTION:
"
  ++ oldTokenSection
  ++ lit "

NEW TOKENS TO MERGE:
"
  ++ newTokenSection
  ++ lit "

RULES:
1. Update existing token values to match new tokens EXACTLY as they appear in NEW
2. Add new tokens in the appropriate blocks (maintain structure and ordering)
3. Preserve all comments, section headers, and formatting from OLD
4. Keep the block structures intact (@theme { }, :root { }, .dark-theme { })
5. If a token exists in both OLD and NEW, use the NEW value EXACTLY (including var() syntax)
6. If a token is only in NEW, add it to the appropriate block
7. If a token is only in OLD, keep it unchanged
8. DO NOT add fallbacks to var() references - keep them exactly as provided
9. DO NOT remove fallbacks from var() references - keep them exactly as provided
10. Preserve the exact var() syntax from NEW tokens (with or without fallbacks)

OUTPUT REQUIREMENTS:
- Output ONLY the updated token section content
- DO NOT wrap output in markdown code blocks (no ```css)
- DO NOT add explanations or comments outside the CSS
- Start with @theme and end with the closing brace of .dark-theme
- Match the exact formatting and syntax from the inputs

Output the updated token section:".

Definition updateTokenSection (oldTokenSection newTokenSection apiKey : jsstring)
    : prog jsstring :=
  text <- await (MessagesCreate apiKey (lit "claude-sonnet-4-5-20250929") 8000
                   (tokenSectionPrompt oldTokenSection newTokenSection)) ;;
  Ret (cleanMarkdownFormatting text).

(** *** TokenUpdateWorkflow *)

Record Config := mkConfig {
  anthropicApiKey : jsstring;
  githubToken : jsstring;
  githubOwner : jsstring;
  githubRepo : jsstring;
  targetFilePath : jsstring;
  botBranch : jsstring;
  testMode : bool
}.

(** The three objects [processUpdate] returns:
    [{success: true, noChanges: true, message}],
    [{success: true, prUrl, testMode}] and [{success: false, error}]. *)
Inductive UpdateResult :=
| NoChanges (message : jsstring)
| Updated (prUrl : jsstring) (inTestMode : bool)
| Failed (error : jsstring).

Definition github (cfg : Config) : GitHubClient :=
  mkGitHubClient (githubToken cfg) (githubOwner cfg) (githubRepo cfg).

Definition mergeTokenSection (cfg : Config)
    (oldTokenSection newTokenSection : jsstring) : prog jsstring :=
  updateTokenSection oldTokenSection newTokenSection (anthropicApiKey cfg).

Definition missingOldSection : jsstring :=
  lit "No complete token section found in old CSS (missing @theme, :root, or .dark-theme)".

Definition missingNewSection : jsstring :=
  lit "No complete token section found in new CSS (missing @theme, :root, or .dark-theme)".

Definition commitTitle : jsstring := lit "[automated] Update Design Tokens".

Definition treeUrl (cfg : Config) : jsstring :=
  lit "https://github.com/" ++ githubOwner cfg ++ lit "/" ++ githubRepo cfg
    ++ lit "/tree/" ++ botBranch cfg.

(** The body of the [try] block of [processUpdate]. *)
Definition processUpdateBody (rt : Runtime) (cfg : Config) (newCSS : jsstring)
    : prog UpdateResult :=
  botBranchExists <- branchExists (github cfg) (botBranch cfg) ;;
  fileData <-
    (if negb botBranchExists then
       fileData <- getFileContent rt (github cfg) (targetFilePath cfg)
                     (lit "main") ;;
       _ <- createBranch (github cfg) (botBranch cfg) (lit "main") ;;
       Ret fileData
     else
       getFileContent rt (github cfg) (targetFilePath cfg) (botBranch cfg)) ;;
  let oldCSS := content fileData in
  let fileSha := sha fileData in
  let oldTokenSection := extractDesignTokenSection oldCSS in
  let newTokenSection := extractDesignTokenSection newCSS in
  match oldTokenSection with
  | None => Raise (mkError None missingOldSection)
  | Some oldSection =>
      match newTokenSection with
      | None => Raise (mkError None missingNewSection)
      | Some newSection =>
          updatedTokenSection <-
            mergeTokenSection cfg (Section_.content oldSection)
              (Section_.content newSection) ;;
          match replaceLines oldCSS (Section_.startLine oldSection)
                  (Section_.endLine oldSection) updatedTokenSection with
          | Throw e => Raise (mkError None (errorMessage e))
          | Ok mergedCSS =>
              if strictEq mergedCSS oldCSS then
                Ret (NoChanges (lit "No changes detected in design tokens"))
              else
                _ <- updateFile rt (github cfg) (targetFilePath cfg) mergedCSS
                       (botBranch cfg) fileSha commitTitle ;;
                prUrl <-
                  (if testMode cfg then Ret (treeUrl cfg)
                   else
                     prInfo <- getPullRequest (github cfg) (botBranch cfg)
                                 (lit "main") ;;
                     match prInfo with
                     | Some (_, url) => Ret url
                     | None =>
                         newPR <- createPullRequest (github cfg) commitTitle
                                    (botBranch cfg) (lit "main") commitTitle ;;
                         Ret (snd newPR)
                     end) ;;
                Ret (Updated prUrl (testMode cfg))
          end
      end
  end.

Definition processUpdate (rt : Runtime) (cfg : Config) (newCSS : jsstring)
    : prog UpdateResult :=
  tryCatch (processUpdateBody rt cfg newCSS)
    (fun error => Ret (Failed (errMessage error))).

(** *** Runs

    A run answers each awaited call; the answer may depend on what
    happened before.  The trace keeps each call with what came back. *)
Inductive reply :=
| RNothing
| RFile (data : FileData)
| RSha (sha : jsstring)
| RPulls (pulls : list PullData)
| RPull (pull : PullData)
| RText (text : jsstring)
| RError (e : JsError).

Definition replyOf (c : call) (o : outcome c) : reply :=
  match o with
  | Rejected e => RError e
  | Resolved r =>
      match c return response c -> reply with
      | ReposGetBranch _ _ _ => fun _ => RNothing
      | ReposGetContent _ _ _ _ => fun d => RFile d
      | GitGetRef _ _ _ => fun s => RSha s
      | GitCreateRef _ _ _ _ => fun _ => RNothing
      | ReposCreateOrUpdateFileContents _ _ _ _ _ _ _ => fun _ => RNothing
      | PullsList _ _ _ _ _ => fun l => RPulls l
      | PullsCreate _ _ _ _ _ _ => fun p => RPull p
      | MessagesCreate _ _ _ _ => fun t => RText t
      end r
  end.

Definition event : Type := call * reply.
Definition world : Type := list event -> forall c : call, outcome c.

Fixpoint run {A : Type} (w : world) (p : prog A) (trace : list event)
    : list event * (A + JsError) :=
  match p with
  | Ret a => (trace, inl a)
  | Raise e => (trace, inr e)
  | Await c k =>
      run w (k (w trace c)) (trace ++ [(c, replyOf c (w trace c))])
  end.

(** [post] holds at the end of every run of [p] continuing [trace]. *)
Fixpoint allRuns {A : Type} (p : prog A) (trace : list event)
    (post : list event -> A + JsError -> Prop) : Prop :=
  match p with
  | Ret a => post trace (inl a)
  | Raise e => post trace (inr e)
  | Await c k =>
      forall o : outcome c, allRuns (k o) (trace ++ [(c, replyOf c o)]) post
  end.

Definition isPullCall (c : call) : bool :=
  match c with
  | PullsList _ _ _ _ _ | PullsCreate _ _ _ _ _ _ => true
  | _ => false
  end.

Definition isCommit (c : call) : bool :=
  match c with
  | ReposCreateOrUpdateFileContents _ _ _ _ _ _ _ => true
  | _ => false
  end.

Definition isMergeCall (c : call) : bool :=
  match c with
  | MessagesCreate _ _ _ _ => true
  | _ => false
  end.

(** A write to the repository aimed at the bot branch of the
    configuration: the new ref, the commit, the pull request. *)
Definition writesToBotBranch (cfg : Config) (c : call) : Prop :=
  match c with
  | GitCreateRef owner repo ref _ =>
      owner = githubOwner cfg /\ repo = githubRepo cfg
      /\ ref = lit "refs/heads/" ++ botBranch cfg
  | ReposCreateOrUpdateFileContents owner repo path message _ _ branch =>
      owner = githubOwner cfg /\ repo = githubRepo cfg
      /\ path = targetFilePath cfg /\ message = commitTitle
      /\ branch = botBranch cfg
  | PullsCreate owner repo title head base body =>
      owner = githubOwner cfg /\ repo = githubRepo cfg
      /\ title = commitTitle /\ head = botBranch cfg /\ base = lit "main"
      /\ body = commitTitle
  | _ => True
  end.

(** A configuration, a world in which every call is rejected with status
    500, and the identity in place of the base64 conversions, to run the
    workflow on. *)
Definition sampleConfig (inTestMode : bool) : Config :=
  mkConfig (lit "key") (lit "token") (lit "comfy") (lit "frontend")
    (lit "style.css") (lit "bot") inTestMode.

Definition plainRuntime : Runtime := mkRuntime (fun s => s) (fun s => s).

Definition failingWorld : world :=
  fun _ c => Rejected (mkError (Some 500) (lit "boom")).

(** A world in which the bot branch exists and holds [document] under
    sha [abc], the completion API answers [text], and every other call
    resolves, with no open pull request. *)
Definition quietWorld (document text : jsstring) : world :=
  fun _ c =>
    match c as c0 return outcome c0 with
    | ReposGetBranch o r b => @Resolved (ReposGetBranch o r b) tt
    | ReposGetContent o r p f =>
        @Resolved (ReposGetContent o r p f) (mkFileData document (lit "abc"))
    | GitGetRef o r f => @Resolved (GitGetRef o r f) (lit "abc")
    | GitCreateRef o r f h => @Resolved (GitCreateRef o r f h) tt
    | ReposCreateOrUpdateFileContents o r p m t h b =>
        @Resolved (ReposCreateOrUpdateFileContents o r p m t h b) tt
    | PullsList o r h b t => @Resolved (PullsList o r h b t) []
    | PullsCreate o r t h b y =>
        @Resolved (PullsCreate o r t h b y) (mkPullData 7 (lit "pr-url"))
    | MessagesCreate k m n t => @Resolved (MessagesCreate k m n t) text
    end.

Definition isBranchProbe (c : call) : bool :=
  match c with
  | ReposGetBranch _ _ _ => true
  | _ => false
  end.

Definition isRefCall (c : call) : bool :=
  match c with
  | GitGetRef _ _ _ | GitCreateRef _ _ _ _ => true
  | _ => false
  end.

(** The last call of a trace was rejected. *)
Definition endsWithRejection (trace : list event) : bool :=
  match rev trace with
  | (_, RError _) :: _ => true
  | _ => false
  end.

(** Find an event in a trace given event by event. *)
Ltac find_event :=
  solve [simpl; repeat first [left; reflexivity | right]].

(** Membership of an event in a trace given event by event. *)
Ltac in_trace H :=
  simpl in H;
  repeat (destruct H as [H|H];
          [try discriminate H; try (inversion H; subst; clear H) | ]);
  try contradiction.

(** Symbolic execution of a workflow program: take each outcome of an
    awaited call and each branch of the tests in between. *)
Ltac exec_step :=
  match goal with
  | |- forall o : outcome _, _ => intros [?r|?err]
  | |- context [match extractDesignTokenSection ?x with _ => _ end] =>
      destruct (extractDesignTokenSection x) eqn:?
  | |- context [match replaceLines ?a ?b ?c ?d with _ => _ end] =>
      destruct (replaceLines a b c d) eqn:?
  | |- context [if strictEq ?a ?b then _ else _] =>
      destruct (strictEq a b) eqn:?
  | |- context [if testMode ?c then _ else _] =>
      destruct (testMode c) eqn:?
  | |- context [match errStatus ?e with _ => _ end] =>
      destruct (errStatus e) eqn:?
  | |- context [if ?s =? 404 then _ else _] =>
      destruct (s =? 404) eqn:?
  | |- context [match ?r with [] => _ | _ :: _ => _ end] =>
      is_var r; destruct r
  end.

Ltac exec :=
  unfold processUpdate, processUpdateBody, branchExists, getFileContent,
    createBranch, mergeTokenSection, updateTokenSection, updateFile,
    getPullRequest, createPullRequest, await;
  repeat first
    [ progress cbn [allRuns tryCatch bind negb app content sha fst snd replyOf
                    errMessage]
    | exec_step ].

(** *** Where a section ends, in terms of the document *)

Definition firstThemeLine (lines : list jsstring) : Z :=
  firstMatchFrom themeLine lines 0.

Definition firstRootLine (lines : list jsstring) : Z :=
  firstMatchFrom rootLine lines 0.


(** The braces of some lines, counted on their text: the number of [{]
    less the number of [}]. *)
Definition countChar (c : char) (s : jsstring) : nat :=
  count_occ N.eq_dec s c.

Definition braceBalance (lines : list jsstring) : Z :=
  Z.of_nat (countChar LBRACE (concat lines))
  - Z.of_nat (countChar RBRACE (concat lines)).

(** Lines [d..e] hold as many [{] as [}], and lines [d..k] do not for any
    [k] between the two: the braces counted from line [d] on first balance
    on line [e]. *)
Definition balancesFirstAt (lines : list jsstring) (d e : Z) : Prop :=
  braceBalance (linesBetween lines d e) = 0
  /\ forall k, d < k -> k < e -> braceBalance (linesBetween lines d k) <> 0.

(** Line [d] starts with [.dark-theme], the braces counted from it first
    balance on the later line [e], and no line after [d] up to [e] is the
    first non-inline [@theme] line or the first [:root] line of the
    document, which would take the tracked block over. *)
Definition darkThemeClosesAt (lines : list jsstring) (d e : Z) : Prop :=
  1 <= d /\ d < e /\ e <= Z.of_nat (length lines)
  /\ (exists line, lineAt lines d = Some line /\ darkThemeLine line = true)
  /\ (forall k, d < k -> k <= e ->
        k <> firstThemeLine lines /\ k <> firstRootLine lines)
  /\ balancesFirstAt lines d e.


(** What the loop of [extractDesignTokenSection] keeps about the order of
    the recorded lines: none lies after the lines seen, and while the
    current block is the [.dark-theme] one its start is the latest. *)
Definition orderOk (i : Z) (st : Loc.t) : Prop :=
  Loc.themeStartLine st <= i /\ Loc.rootStartLine st <= i
  /\ (Loc.currentBlockType st = Some KDarkTheme ->
      Loc.themeStartLine st < Loc.darkThemeStartLine st
      /\ Loc.rootStartLine st < Loc.darkThemeStartLine st).

(** A [.dark-theme] block on one line followed by a rule, and a [:root]
    line inside the [.dark-theme] block. *)
Definition oneLineDarkTheme : jsstring := lit "@theme {
}
.dark-theme { }
.x { color: red; }".

Definition oneLineDarkThemeSection : Section_.t :=
  Section_.mk 1 4 oneLineDarkTheme (Anchors.mk 1 (-1) 3 4).



(** Case analysis along the [if] chain of the loop body. *)
Ltac step_cases st line :=
  unfold sectionStep; cbv zeta;
  destruct ((Loc.themeStartLine st =? -1) && isThemeAnchor (trim line))
    eqn:Htheme;
  [| destruct ((Loc.rootStartLine st =? -1) && isRootAnchor (trim line))
       eqn:Hroot;
     [| destruct (isDarkThemeAnchor (trim line)) eqn:Hdark;
        [| destruct (Loc.inBlock st) eqn:Hin;
           [ destruct (Loc.braceDepth st + matchCount LBRACE line
                       - matchCount RBRACE line =? 0) eqn:Hzero;
             [ destruct (isDarkTheme (Loc.currentBlockType st)) eqn:Hkind | ]
           | ] ] ] ].

(** ** Splitting and joining *)

Section SplitJoin.

Variable sep : char.

Lemma consHead_nonempty c pieces : consHead c pieces <> [].
Proof. destruct pieces; discriminate. Qed.

Lemma split_nonempty s : split sep s <> [].
Proof.
  destruct s as [|c s]; simpl; [discriminate|].
  destruct (c =? sep)%N; [discriminate | apply consHead_nonempty].
Qed.

Lemma split_length_pos s : (0 < length (split sep s))%nat.
Proof.
  pose proof (split_nonempty s) as H.
  destruct (split sep s); [congruence | simpl; lia].
Qed.

Lemma split_sepFree s : Forall (sepFree sep) (split sep s).
Proof.
  induction s as [|c s IH]; simpl.
  - constructor; [intros [] | constructor].
  - destruct (c =? sep)%N eqn:E.
    + constructor; [intros [] | exact IH].
    + apply N.eqb_neq in E.
      destruct (split sep s) as [|p ps]; simpl.
      * constructor; [|constructor]. intros [H|[]]; congruence.
      * inversion IH as [|? ? Hp Hps]; subst.
        constructor; [|exact Hps].
        intros [H|H]; [congruence | exact (Hp H)].
Qed.

Lemma join_split s : join [sep] (split sep s) = s.
Proof.
  induction s as [|c s IH]; simpl; [reflexivity|].
  destruct (c =? sep)%N eqn:E.
  - apply N.eqb_eq in E; subst c.
    pose proof (split_nonempty s) as Hne.
    destruct (split sep s) as [|p ps]; [congruence|].
    simpl in *. now rewrite IH.
  - pose proof (split_nonempty s) as Hne.
    destruct (split sep s) as [|p ps]; [congruence|].
    simpl in *. destruct ps; simpl in *; now rewrite <- IH.
Qed.

Lemma split_app a b :
  split sep (a ++ sep :: b) = split sep a ++ split sep b.
Proof.
  induction a as [|c a IH]; simpl.
  - now rewrite N.eqb_refl.
  - destruct (c =? sep)%N; rewrite IH; [reflexivity|].
    pose proof (split_nonempty a) as Hne.
    destruct (split sep a); [congruence | reflexivity].
Qed.

Lemma split_sepFree_id p : sepFree sep p -> split sep p = [p].
Proof.
  unfold sepFree. induction p as [|c p IH]; simpl; intros H; [reflexivity|].
  destruct (c =? sep)%N eqn:E.
  - apply N.eqb_eq in E. exfalso. apply H. now left.
  - rewrite IH; [reflexivity | intros Hin; apply H; now right].
Qed.

Lemma split_join pieces :
  pieces <> [] -> Forall (sepFree sep) pieces ->
  split sep (join [sep] pieces) = pieces.
Proof.
  induction pieces as [|x rest IH]; intros Hne Hall; [congruence|].
  inversion Hall as [|? ? Hx Hrest]; subst.
  destruct rest as [|y rest'].
  - simpl. now apply split_sepFree_id.
  - assert (E : join [sep] (x :: y :: rest')
                 = x ++ sep :: join [sep] (y :: rest')) by reflexivity.
    rewrite E, split_app, IH, split_sepFree_id by (congruence || auto).
    reflexivity.
Qed.

End SplitJoin.

(** ** Slices inside the bounds of the array *)

Lemma relIndex_inside len i : 0 <= i <= len -> relIndex len i = i.
Proof.
  intros H. unfold relIndex.
  destruct (i <? 0) eqn:E; [apply Z.ltb_lt in E; lia | lia].
Qed.

Lemma slice_inside {A : Type} (a : list A) (i j : Z) :
  0 <= i -> i <= j -> j <= Z.of_nat (length a) ->
  slice a i j = firstn (Z.to_nat (j - i)) (skipn (Z.to_nat i) a).
Proof.
  intros Hi Hij Hj. unfold slice.
  now rewrite !relIndex_inside by lia.
Qed.

Lemma slice_prefix {A : Type} (a : list A) (j : Z) :
  0 <= j <= Z.of_nat (length a) -> slice a 0 j = firstn (Z.to_nat j) a.
Proof.
  intros H. rewrite slice_inside by lia.
  now rewrite Z.sub_0_r.
Qed.

Lemma sliceFrom_inside {A : Type} (a : list A) (i : Z) :
  0 <= i <= Z.of_nat (length a) -> sliceFrom a i = skipn (Z.to_nat i) a.
Proof.
  intros H. unfold sliceFrom. rewrite slice_inside by lia.
  apply firstn_all2. rewrite length_skipn. lia.
Qed.

Lemma slice_of_prefix {A : Type} (a : list A) (i j : Z) :
  0 <= i -> i <= j -> j <= Z.of_nat (length a) ->
  slice a i j = skipn (Z.to_nat i) (firstn (Z.to_nat j) a).
Proof.
  intros Hi Hij Hj. rewrite slice_inside by lia.
  rewrite skipn_firstn_comm. f_equal. lia.
Qed.

Lemma slice_split3 {A : Type} (a : list A) (s e : Z) :
  1 <= s -> s <= e -> e <= Z.of_nat (length a) ->
  slice a 0 (s - 1) ++ slice a (s - 1) e ++ sliceFrom a e = a.
Proof.
  intros Hs Hse He.
  rewrite slice_prefix, sliceFrom_inside, (slice_inside a (s - 1) e) by lia.
  set (k := Z.to_nat (s - 1)).
  replace (Z.to_nat e) with (Z.to_nat (e - (s - 1)) + k)%nat by lia.
  rewrite <- skipn_skipn.
  rewrite firstn_skipn. apply firstn_skipn.
Qed.

(** ** replaceLines *)

Lemma Forall_firstn_skipn {A : Type} (P : A -> Prop) (n : nat) (l : list A) :
  Forall P l -> Forall P (firstn n l) /\ Forall P (skipn n l).
Proof. intros H. apply Forall_app. now rewrite firstn_skipn. Qed.

Lemma lineCount_pos D : 1 <= lineCount D.
Proof. unfold lineCount. pose proof (split_length_pos NL D). lia. Qed.

Lemma replaceLines_throws D s e X :
  s < 1 \/ e > lineCount D \/ s > e ->
  replaceLines D s e X = Throw (mkRangeError s e (lineCount D)).
Proof.
  intros H. unfold replaceLines, lineCount in *.
  destruct ((s <? 1) || (e >? Z.of_nat (length (split NL D))) || (s >? e))
    eqn:E; [reflexivity|].
  rewrite !orb_false_iff in E. destruct E as [[E1 E2] E3].
  apply Z.ltb_ge in E1. rewrite Z.gtb_ltb in E2, E3.
  apply Z.ltb_ge in E2, E3. lia.
Qed.

Lemma replaceLines_valid D s e X :
  1 <= s -> s <= e -> e <= lineCount D ->
  replaceLines D s e X = Ok (join newline (splicedLines D s e X)).
Proof.
  intros Hs Hse He. unfold replaceLines, lineCount in *.
  destruct ((s <? 1) || (e >? Z.of_nat (length (split NL D))) || (s >? e))
    eqn:E.
  - rewrite !orb_true_iff, !Z.gtb_ltb, !Z.ltb_lt in E. lia.
  - unfold splicedLines.
    now rewrite slice_prefix, sliceFrom_inside by lia.
Qed.

Lemma splicedLines_split D s e X :
  split NL (join newline (splicedLines D s e X)) = splicedLines D s e X.
Proof.
  unfold newline. apply split_join.
  - unfold splicedLines. pose proof (split_nonempty NL X) as Hne.
    destruct (split NL X); [congruence|].
    intros H. apply app_eq_nil in H as [_ H]. discriminate.
  - unfold splicedLines. rewrite !Forall_app.
    pose proof (Forall_firstn_skipn (sepFree NL) (Z.to_nat (s - 1)) _
                  (split_sepFree NL D)) as [H1 _].
    pose proof (Forall_firstn_skipn (sepFree NL) (Z.to_nat e) _
                  (split_sepFree NL D)) as [_ H2].
    repeat split; auto using split_sepFree.
Qed.

Lemma splicedLines_length D s e X :
  1 <= s -> s <= e -> e <= lineCount D ->
  Z.of_nat (length (splicedLines D s e X))
  = lineCount D - (e - s + 1) + lineCount X.
Proof.
  intros Hs Hse He. unfold splicedLines, lineCount in *.
  rewrite !length_app, length_skipn, firstn_length_le by lia. lia.
Qed.

(** C6: [replaceLines] throws exactly when [s < 1], [e > lineCount D] or
    [s > e]; the error carries the two bounds and the line count of the
    document, which its message interpolates, in decimal digits for
    integers of magnitude below 2^53; a call that does not throw splices
    at exactly the given bounds.  With five lines or more, the ranges 5-3
    and 0-1 are both rejected. *)
Theorem replaceLines_rejects_invalid_range (D X : jsstring) (s e : Z) :
  ((exists err, replaceLines D s e X = Throw err)
     <-> (s < 1 \/ e > lineCount D \/ s > e))
  /\ (forall err, replaceLines D s e X = Throw err ->
        err = mkRangeError s e (lineCount D)
        /\ (Z.abs s < 2 ^ 53 -> Z.abs e < 2 ^ 53 -> lineCount D < 2 ^ 53 ->
            errorMessage err
            = lit "Invalid line range: " ++ showZ s ++ lit "-" ++ showZ e
                ++ lit " (total lines: " ++ showZ (lineCount D) ++ lit ")"))
  /\ (forall out, replaceLines D s e X = Ok out ->
        out = join newline (splicedLines D s e X))
  /\ (5 <= lineCount D ->
        replaceLines D 5 3 (lit "x") = Throw (mkRangeError 5 3 (lineCount D))
        /\ replaceLines D 0 1 (lit "x")
           = Throw (mkRangeError 0 1 (lineCount D))).
Proof.
  assert (Hdec : (s < 1 \/ e > lineCount D \/ s > e)
                 \/ (1 <= s /\ s <= e /\ e <= lineCount D)) by lia.
  split; [split|split; [|split]].
  - intros [err Herr]. destruct Hdec as [H|(H1 & H2 & H3)]; [exact H|].
    rewrite replaceLines_valid in Herr by assumption. discriminate.
  - intros H. eexists. now apply replaceLines_throws.
  - intros err Herr. destruct Hdec as [H|(H1 & H2 & H3)].
    + rewrite replaceLines_throws in Herr by assumption.
      injection Herr as <-. split; [reflexivity | intros _ _ _; reflexivity].
    + rewrite replaceLines_valid in Herr by assumption. discriminate.
  - intros out Hout. destruct Hdec as [H|(H1 & H2 & H3)].
    + rewrite replaceLines_throws in Hout by assumption. discriminate.
    + rewrite replaceLines_valid in Hout by assumption. congruence.
  - intros H5. split; apply replaceLines_throws; lia.
Qed.

Lemma replaceLines_rejects_invalid_range_witness :
  (5 <= lineCount fiveLines
   /\ replaceLines fiveLines 5 3 (lit "x")
      = Throw (mkRangeError 5 3 (lineCount fiveLines))
   /\ replaceLines fiveLines 0 1 (lit "x")
      = Throw (mkRangeError 0 1 (lineCount fiveLines)))
  /\ errorMessage (mkRangeError 5 3 5)
     = lit "Invalid line range: 5-3 (total lines: 5)".
Proof.
  assert (H : 5 <= lineCount fiveLines) by (vm_compute; discriminate).
  split.
  - split; [exact H|].
    exact (proj2 (proj2 (proj2
             (replaceLines_rejects_invalid_range fiveLines [] 1 1))) H).
  - destruct (proj1 (proj2 (replaceLines_rejects_invalid_range
                              fiveLines (lit "x") 5 3))
                (mkRangeError 5 3 5) eq_refl) as [_ Hmsg].
    rewrite Hmsg; [reflexivity | | |]; vm_compute; reflexivity.
Defined.

(** C7: on a valid range the lines before [s] and the lines after [e]
    come out unchanged and in order, as the first [s-1] and the last
    [lineCount D - e] lines of the output, whose line count is
    [lineCount D - (e - s + 1)] plus the line count of the replacement. *)
Theorem replaceLines_frame (D X : jsstring) (s e : Z) :
  1 <= s -> s <= e -> e <= lineCount D ->
  exists out,
    replaceLines D s e X = Ok out
    /\ firstn (Z.to_nat (s - 1)) (split NL out)
       = firstn (Z.to_nat (s - 1)) (split NL D)
    /\ skipn (Z.to_nat (lineCount out - (lineCount D - e))) (split NL out)
       = skipn (Z.to_nat e) (split NL D)
    /\ lineCount out = lineCount D - (e - s + 1) + lineCount X.
Proof.
  intros Hs Hse He.
  exists (join newline (splicedLines D s e X)).
  pose proof (splicedLines_length D s e X Hs Hse He) as Hlen.
  pose proof (lineCount_pos X) as HX.
  assert (Hcount : lineCount (join newline (splicedLines D s e X))
                   = lineCount D - (e - s + 1) + lineCount X).
  { unfold lineCount at 1. now rewrite splicedLines_split. }
  split; [now apply replaceLines_valid|].
  rewrite Hcount, splicedLines_split.
  unfold lineCount in *.
  assert (Hpre : length (firstn (Z.to_nat (s - 1)) (split NL D))
                 = Z.to_nat (s - 1)) by (apply firstn_length_le; lia).
  repeat split.
  - unfold splicedLines.
    rewrite firstn_app, Hpre, Nat.sub_diag, firstn_O, app_nil_r.
    apply firstn_all2. lia.
  - unfold splicedLines.
    rewrite app_assoc, skipn_app.
    rewrite (skipn_all2 (firstn _ _ ++ split NL X))
      by (rewrite length_app, Hpre; lia).
    rewrite length_app, Hpre. simpl.
    replace (Z.to_nat
               (Z.of_nat (length (split NL D)) - (e - s + 1)
                + Z.of_nat (length (split NL X))
                - (Z.of_nat (length (split NL D)) - e))
             - (Z.to_nat (s - 1) + length (split NL X)))%nat
      with 0%nat by lia.
    reflexivity.
Qed.

Lemma replaceLines_frame_witness :
  exists out,
    replaceLines fiveLines 2 3 (lit "x") = Ok out
    /\ firstn (Z.to_nat (2 - 1)) (split NL out)
       = firstn (Z.to_nat (2 - 1)) (split NL fiveLines)
    /\ skipn (Z.to_nat (lineCount out - (lineCount fiveLines - 3)))
         (split NL out)
       = skipn (Z.to_nat 3) (split NL fiveLines)
    /\ lineCount out
       = lineCount fiveLines - (3 - 2 + 1) + lineCount (lit "x").
Proof.
  apply (replaceLines_frame fiveLines (lit "x") 2 3);
    vm_compute; discriminate.
Defined.

Lemma slice_lines_split D s e :
  1 <= s -> s <= e -> e <= lineCount D ->
  split NL (sliceLines D s e) = slice (split NL D) (s - 1) e.
Proof.
  intros Hs Hse He. unfold sliceLines, newline, lineCount in *.
  apply split_join.
  - rewrite slice_inside by lia.
    intros H. apply (f_equal (@length jsstring)) in H.
    rewrite firstn_length_le in H by (rewrite length_skipn; lia).
    simpl in H. lia.
  - rewrite slice_inside by lia.
    pose proof (Forall_firstn_skipn (sepFree NL) (Z.to_nat (s - 1)) _
                  (split_sepFree NL D)) as [_ H].
    now apply (Forall_firstn_skipn (sepFree NL) (Z.to_nat (e - (s - 1)))) in H.
Qed.

(** C8: replacing lines [s..e] of [D] by their own newline-joined text
    gives back [D]. *)
Theorem replaceLines_round_trip (D : jsstring) (s e : Z) :
  1 <= s -> s <= e -> e <= lineCount D ->
  replaceLines D s e (sliceLines D s e) = Ok D.
Proof.
  intros Hs Hse He.
  rewrite replaceLines_valid by assumption. f_equal.
  unfold splicedLines. rewrite slice_lines_split by assumption.
  unfold lineCount in He.
  rewrite <- (slice_prefix (split NL D) (s - 1)) by lia.
  rewrite <- (sliceFrom_inside (split NL D) e) by lia.
  rewrite slice_split3 by lia.
  apply join_split.
Qed.

Lemma replaceLines_round_trip_witness :
  replaceLines fiveLines 2 4 (sliceLines fiveLines 2 4) = Ok fiveLines.
Proof.
  apply (replaceLines_round_trip fiveLines 2 4); vm_compute; discriminate.
Defined.

(** C10: an empty replacement does not delete the range: it stands for
    one empty line, so the output has [lineCount D - (e - s + 1) + 1]
    lines and its line [s] is empty. *)
Theorem replaceLines_empty_replacement (D : jsstring) (s e : Z) :
  1 <= s -> s <= e -> e <= lineCount D ->
  exists out,
    replaceLines D s e [] = Ok out
    /\ lineCount out = lineCount D - (e - s + 1) + 1
    /\ lineAt (split NL out) s = Some []
    /\ split NL out
       = firstn (Z.to_nat (s - 1)) (split NL D)
           ++ [[]] ++ skipn (Z.to_nat e) (split NL D).
Proof.
  intros Hs Hse He.
  exists (join newline (splicedLines D s e [])).
  split; [now apply replaceLines_valid|].
  unfold lineCount at 1. rewrite splicedLines_split.
  split; [now rewrite splicedLines_length|].
  split; [|reflexivity].
  unfold lineAt, splicedLines, lineCount in *.
  destruct (s <? 1) eqn:E; [apply Z.ltb_lt in E; lia|].
  rewrite nth_error_app2 by (rewrite firstn_length_le; lia).
  rewrite firstn_length_le, Nat.sub_diag by lia.
  reflexivity.
Qed.

Lemma replaceLines_empty_replacement_witness :
  exists out,
    replaceLines fiveLines 2 3 [] = Ok out
    /\ lineCount out = lineCount fiveLines - (3 - 2 + 1) + 1
    /\ lineAt (split NL out) 2 = Some []
    /\ split NL out
       = firstn (Z.to_nat (2 - 1)) (split NL fiveLines)
           ++ [[]] ++ skipn (Z.to_nat 3) (split NL fiveLines).
Proof.
  apply (replaceLines_empty_replacement fiveLines 2 3);
    vm_compute; discriminate.
Defined.

(** ** extractThemeBlocks *)

Lemma themeBlocksStep_anchor st n line :
  Scan.inBlock st = false ->
  startsWith (trim line) (lit "@theme") = true ->
  themeBlocksStep st n line
  = Scan.mk (Scan.blocks st) true
      (Some (if includes line (lit "inline") then LThemeInline else LTheme))
      n [line] (braceDelta line).
Proof.
  intros Hin Hanchor. unfold themeBlocksStep, braceDelta.
  now rewrite Hin, Hanchor.
Qed.

Lemma themeBlocksStep_inv i st line :
  0 <= i -> scanInv i st -> scanInv (i + 1) (themeBlocksStep st (i + 1) line).
Proof.
  intros Hi [Hblocks Hopen]. unfold themeBlocksStep.
  destruct (negb (Scan.inBlock st) && startsWith (trim line) (lit "@theme")).
  - split; simpl.
    + intros b Hb. specialize (Hblocks b Hb). lia.
    + intros _. lia.
  - destruct (Scan.inBlock st) eqn:Hin.
    + specialize (Hopen eq_refl).
      destruct ((Scan.braceDepth st + matchCount LBRACE line
                 - matchCount RBRACE line =? 0)
                && (1 <? Z.of_nat (length (Scan.blockContent st ++ [line])))).
      * split; simpl; [|discriminate].
        intros b Hb. apply in_app_or in Hb as [Hb|[<-|[]]].
        -- specialize (Hblocks b Hb). lia.
        -- simpl. lia.
      * split; simpl.
        -- intros b Hb. specialize (Hblocks b Hb). lia.
        -- intros _. lia.
    + split.
      * intros b Hb. specialize (Hblocks b Hb). lia.
      * rewrite Hin. discriminate.
Qed.

Lemma themeBlocksLoop_inv lines : forall i st,
  0 <= i -> scanInv i st ->
  scanInv (i + Z.of_nat (length lines)) (themeBlocksLoop lines i st).
Proof.
  induction lines as [|line rest IH]; intros i st Hi Hinv.
  - simpl. now rewrite Z.add_0_r.
  - cbn [themeBlocksLoop length].
    replace (i + Z.of_nat (S (length rest)))
      with ((i + 1) + Z.of_nat (length rest)) by lia.
    apply IH; [lia | now apply themeBlocksStep_inv].
Qed.

Lemma extractThemeBlocks_spans css b :
  In b (extractThemeBlocks css) ->
  1 <= Block.startLine b /\ Block.startLine b < Block.endLine b
  /\ Block.endLine b <= lineCount css.
Proof.
  unfold extractThemeBlocks, lineCount.
  assert (H0 : scanInv 0 Scan.init).
  { split; [intros ? [] | discriminate]. }
  pose proof (themeBlocksLoop_inv (split NL css) 0 Scan.init (Z.le_refl 0) H0)
    as [Hblocks _].
  intros Hb. now apply Hblocks.
Qed.

(** C3 as stated fails: a one-line [@theme { }] alone emits nothing, and
    followed by a rule it is emitted with the rule inside, ending on
    line 2. *)
Lemma one_line_block_not_closed_on_its_line :
  extractThemeBlocks oneLineTheme = []
  /\ extractThemeBlocks oneLineThemeThenRule
     = [Block.mk (Some LTheme) 1 2 oneLineThemeThenRule]
  /\ ~ (exists b, In b (extractThemeBlocks oneLineThemeThenRule)
                  /\ Block.endLine b = Block.startLine b).
Proof.
  split; [reflexivity|]. split; [reflexivity|].
  intros [b [Hb Heq]].
  apply extractThemeBlocks_spans in Hb. lia.
Qed.


(** ** extractDesignTokenSection: one iteration *)

(** The three anchor prefixes start with different characters, so a line
    matches at most one of them. *)
Lemma rootAnchor_not_theme t : isRootAnchor t = true -> isThemeAnchor t = false.
Proof.
  unfold isRootAnchor, isThemeAnchor. destruct t as [|c t]; cbn; [discriminate|].
  destruct (c =? 58)%N eqn:E; [|discriminate].
  apply N.eqb_eq in E. subst c. reflexivity.
Qed.

Lemma darkAnchor_not_theme t :
  isDarkThemeAnchor t = true -> isThemeAnchor t = false.
Proof.
  unfold isDarkThemeAnchor, isThemeAnchor.
  destruct t as [|c t]; cbn; [discriminate|].
  destruct (c =? 46)%N eqn:E; [|discriminate].
  apply N.eqb_eq in E. subst c. reflexivity.
Qed.

Lemma darkAnchor_not_root t :
  isDarkThemeAnchor t = true -> isRootAnchor t = false.
Proof.
  unfold isDarkThemeAnchor, isRootAnchor.
  destruct t as [|c t]; cbn; [discriminate|].
  destruct (c =? 46)%N eqn:E; [|discriminate].
  apply N.eqb_eq in E. subst c. reflexivity.
Qed.

Lemma sectionStep_theme st n line :
  Loc.themeStartLine st = -1 -> themeLine line = true ->
  sectionStep st n line
  = Continue (Loc.mk n (Loc.rootStartLine st) (Loc.darkThemeStartLine st)
                (Loc.darkThemeEndLine st) true (braceDelta line) (Some KTheme)).
Proof.
  unfold themeLine. intros Hst Hline. unfold sectionStep; cbv zeta.
  rewrite Hst, Hline. reflexivity.
Qed.

Lemma sectionStep_root st n line :
  Loc.rootStartLine st = -1 -> rootLine line = true ->
  sectionStep st n line
  = Continue (Loc.mk (Loc.themeStartLine st) n (Loc.darkThemeStartLine st)
                (Loc.darkThemeEndLine st) true (braceDelta line) (Some KRoot)).
Proof.
  unfold rootLine. intros Hst Hline. unfold sectionStep; cbv zeta.
  rewrite (rootAnchor_not_theme _ Hline), andb_false_r, Hst, Hline.
  reflexivity.
Qed.

Lemma sectionStep_darkTheme st n line :
  darkThemeLine line = true ->
  sectionStep st n line
  = Continue (Loc.mk (Loc.themeStartLine st) (Loc.rootStartLine st) n
                (Loc.darkThemeEndLine st) true (braceDelta line)
                (Some KDarkTheme)).
Proof.
  unfold darkThemeLine. intros Hline. unfold sectionStep; cbv zeta.
  rewrite (darkAnchor_not_theme _ Hline), (darkAnchor_not_root _ Hline).
  rewrite !andb_false_r, Hline. reflexivity.
Qed.

Lemma sectionStep_themeStartLine st n line :
  Loc.themeStartLine (stateOf (sectionStep st n line))
  = if (Loc.themeStartLine st =? -1) && themeLine line then n
    else Loc.themeStartLine st.
Proof. unfold themeLine. step_cases st line; reflexivity. Qed.

Lemma sectionStep_rootStartLine st n line :
  Loc.rootStartLine (stateOf (sectionStep st n line))
  = if (Loc.rootStartLine st =? -1) && rootLine line then n
    else Loc.rootStartLine st.
Proof.
  unfold rootLine. step_cases st line; simpl; try rewrite Hroot; auto.
  apply andb_prop in Htheme as [_ Htheme].
  destruct (isRootAnchor (trim line)) eqn:E; [|now rewrite andb_false_r].
  apply rootAnchor_not_theme in E. congruence.
Qed.

Lemma sectionStep_darkThemeStartLine st n line :
  Loc.darkThemeStartLine (stateOf (sectionStep st n line))
  = if darkThemeLine line then n else Loc.darkThemeStartLine st.
Proof.
  unfold darkThemeLine.
  destruct (isDarkThemeAnchor (trim line)) eqn:E.
  - now rewrite sectionStep_darkTheme.
  - step_cases st line; try reflexivity. discriminate.
Qed.

Lemma sectionStep_continue_end st n line st' :
  sectionStep st n line = Continue st' ->
  Loc.darkThemeEndLine st' = Loc.darkThemeEndLine st.
Proof.
  step_cases st line; intros H; inversion H; reflexivity.
Qed.

(** What a [break] says about the state before it and the line. *)
Lemma sectionStep_break st n line st' :
  sectionStep st n line = Break st' ->
  st' = Loc.mk (Loc.themeStartLine st) (Loc.rootStartLine st)
          (Loc.darkThemeStartLine st) n true 0 (Some KDarkTheme)
  /\ Loc.inBlock st = true
  /\ Loc.currentBlockType st = Some KDarkTheme
  /\ Loc.braceDepth st + matchCount LBRACE line - matchCount RBRACE line = 0
  /\ (Loc.themeStartLine st =? -1) && themeLine line = false
  /\ (Loc.rootStartLine st =? -1) && rootLine line = false
  /\ darkThemeLine line = false.
Proof.
  unfold themeLine, rootLine, darkThemeLine.
  step_cases st line; intros H; inversion H; subst.
  apply Z.eqb_eq in Hzero.
  destruct (Loc.currentBlockType st) as [[| |]|]; try discriminate.
  rewrite Hzero. auto 10.
Qed.

(** ** extractDesignTokenSection: the loop *)

Lemma firstMatchFrom_range p lines : forall i,
  0 <= i ->
  firstMatchFrom p lines i = -1
  \/ (i < firstMatchFrom p lines i
      /\ firstMatchFrom p lines i <= i + Z.of_nat (length lines)).
Proof.
  induction lines as [|line rest IH]; intros i Hi; [now left|].
  cbn [firstMatchFrom length]. destruct (p line).
  - right. lia.
  - destruct (IH (i + 1)) as [H|H]; [lia | now left | right; lia].
Qed.

Lemma lastMatchFrom_range p lines : forall i,
  0 <= i ->
  lastMatchFrom p lines i = -1
  \/ (i < lastMatchFrom p lines i
      /\ lastMatchFrom p lines i <= i + Z.of_nat (length lines)).
Proof.
  induction lines as [|line rest IH]; intros i Hi; [now left|].
  cbn [lastMatchFrom length]. cbv zeta.
  destruct (IH (i + 1)) as [H|H]; [lia| |].
  - rewrite H. simpl. destruct (p line); [right; lia | now left].
  - destruct (lastMatchFrom p rest (i + 1) =? -1) eqn:E.
    + apply Z.eqb_eq in E. lia.
    + right. lia.
Qed.


Lemma lastMatchFrom_none p lines i :
  0 <= i ->
  (lastMatchFrom p lines i = -1 <-> Forall (fun l => p l = false) lines).
Proof.
  revert i. induction lines as [|line rest IH]; intros i Hi.
  - split; [constructor | reflexivity].
  - cbn [lastMatchFrom]. cbv zeta.
    destruct (lastMatchFrom p rest (i + 1) =? -1) eqn:E.
    + apply Z.eqb_eq in E. apply IH in E; [|lia].
      destruct (p line) eqn:Ep.
      * split; [lia | intros H; inversion H; congruence].
      * split; [now constructor | reflexivity].
    + apply Z.eqb_neq in E. split; [congruence|].
      intros H. inversion H; subst. elim E. apply IH; [lia | assumption].
Qed.

(** A run without [break] is the loop itself, and visits every line. *)
Lemma sectionPrefix_loop lines : forall i st st',
  sectionPrefix lines i st = Some st' ->
  sectionLoop lines i st = st' /\ visitedLines lines i st = lines.
Proof.
  induction lines as [|line rest IH]; intros i st st' H; simpl in *.
  - split; congruence.
  - destruct (sectionStep st (i + 1) line) as [st1|st1]; [|discriminate].
    destruct (IH _ _ _ H) as [H1 H2]. split; congruence.
Qed.

Lemma sectionPrefix_end lines : forall i st st',
  sectionPrefix lines i st = Some st' ->
  Loc.darkThemeEndLine st' = Loc.darkThemeEndLine st.
Proof.
  induction lines as [|line rest IH]; intros i st st' H; simpl in *.
  - congruence.
  - destruct (sectionStep st (i + 1) line) as [st1|st1] eqn:E; [|discriminate].
    rewrite (IH _ _ _ H). eapply sectionStep_continue_end; eauto.
Qed.

(** Either the loop runs to the end of the array, or the array splits at
    the line of the [break]. *)
Lemma sectionLoop_decompose lines : forall i st,
  sectionPrefix lines i st = Some (sectionLoop lines i st)
  \/ exists pre line post st',
       lines = pre ++ line :: post
       /\ sectionPrefix pre i st = Some st'
       /\ sectionStep st' (i + Z.of_nat (length pre) + 1) line
          = Break (sectionLoop lines i st)
       /\ visitedLines lines i st = pre ++ [line].
Proof.
  induction lines as [|line rest IH]; intros i st; [now left|].
  cbn [sectionPrefix sectionLoop visitedLines].
  destruct (sectionStep st (i + 1) line) as [st1|st1] eqn:E.
  - destruct (IH (i + 1) st1) as [H|(pre & l & post & st' & H1 & H2 & H3 & H4)].
    + now left.
    + right. exists (line :: pre), l, post, st'.
      cbn [app length sectionPrefix]. rewrite E.
      replace (i + Z.of_nat (S (length pre)) + 1)
        with (i + 1 + Z.of_nat (length pre) + 1) by lia.
      repeat split; congruence.
  - right. exists [], line, rest, st. simpl.
    rewrite Z.add_0_r. auto.
Qed.

(** A [break] makes whatever follows the line irrelevant. *)
Lemma sectionLoop_break_app pre : forall i st st' line post final,
  sectionPrefix pre i st = Some st' ->
  sectionStep st' (i + Z.of_nat (length pre) + 1) line = Break final ->
  sectionLoop (pre ++ line :: post) i st = final.
Proof.
  induction pre as [|l pre IH]; intros i st st' line post final Hpre Hstep.
  - simpl in *. injection Hpre as <-.
    rewrite Z.add_0_r in Hstep. now rewrite Hstep.
  - cbn [app sectionLoop sectionPrefix length] in *.
    destruct (sectionStep st (i + 1) l) as [st1|st1]; [|discriminate].
    apply (IH (i + 1) st1 st'); [assumption|].
    replace (i + 1 + Z.of_nat (length pre) + 1)
      with (i + Z.of_nat (S (length pre)) + 1) by lia.
    assumption.
Qed.

(** The three start lines the loop records, read off the visited lines:
    the first [@theme] line, the first [:root] line, the last
    [.dark-theme] line. *)
Lemma sectionLoop_themeStartLine lines : forall i st,
  0 <= i ->
  Loc.themeStartLine (sectionLoop lines i st)
  = if Loc.themeStartLine st =? -1
    then firstMatchFrom themeLine (visitedLines lines i st) i
    else Loc.themeStartLine st.
Proof.
  induction lines as [|line rest IH]; intros i st Hi.
  - simpl. destruct (Loc.themeStartLine st =? -1) eqn:E; [|reflexivity].
    now apply Z.eqb_eq in E.
  - cbn [sectionLoop visitedLines firstMatchFrom].
    pose proof (sectionStep_themeStartLine st (i + 1) line) as Hstep.
    destruct (sectionStep st (i + 1) line) as [st1|st1]; simpl in Hstep.
    + rewrite IH, Hstep by lia.
      destruct (Loc.themeStartLine st =? -1) eqn:E1;
        destruct (themeLine line); simpl; try rewrite E1; try reflexivity.
      destruct (i + 1 =? -1) eqn:E2; [apply Z.eqb_eq in E2; lia | reflexivity].
    + rewrite Hstep. simpl.
      destruct (Loc.themeStartLine st =? -1) eqn:E1;
        destruct (themeLine line); simpl; try reflexivity.
      now apply Z.eqb_eq in E1.
Qed.

Lemma sectionLoop_rootStartLine lines : forall i st,
  0 <= i ->
  Loc.rootStartLine (sectionLoop lines i st)
  = if Loc.rootStartLine st =? -1
    then firstMatchFrom rootLine (visitedLines lines i st) i
    else Loc.rootStartLine st.
Proof.
  induction lines as [|line rest IH]; intros i st Hi.
  - simpl. destruct (Loc.rootStartLine st =? -1) eqn:E; [|reflexivity].
    now apply Z.eqb_eq in E.
  - cbn [sectionLoop visitedLines firstMatchFrom].
    pose proof (sectionStep_rootStartLine st (i + 1) line) as Hstep.
    destruct (sectionStep st (i + 1) line) as [st1|st1]; simpl in Hstep.
    + rewrite IH, Hstep by lia.
      destruct (Loc.rootStartLine st =? -1) eqn:E1;
        destruct (rootLine line); simpl; try rewrite E1; try reflexivity.
      destruct (i + 1 =? -1) eqn:E2; [apply Z.eqb_eq in E2; lia | reflexivity].
    + rewrite Hstep. simpl.
      destruct (Loc.rootStartLine st =? -1) eqn:E1;
        destruct (rootLine line); simpl; try reflexivity.
      now apply Z.eqb_eq in E1.
Qed.

Lemma sectionLoop_darkThemeStartLine lines : forall i st,
  0 <= i ->
  Loc.darkThemeStartLine (sectionLoop lines i st)
  = if lastMatchFrom darkThemeLine (visitedLines lines i st) i =? -1
    then Loc.darkThemeStartLine st
    else lastMatchFrom darkThemeLine (visitedLines lines i st) i.
Proof.
  induction lines as [|line rest IH]; intros i st Hi; [reflexivity|].
  cbn [sectionLoop visitedLines lastMatchFrom]. cbv zeta.
  pose proof (sectionStep_darkThemeStartLine st (i + 1) line) as Hstep.
  destruct (sectionStep st (i + 1) line) as [st1|st1]; simpl in Hstep.
  - rewrite IH, Hstep by lia.
    destruct (lastMatchFrom darkThemeLine (visitedLines rest (i + 1) st1)
                (i + 1) =? -1) eqn:E1.
    + destruct (darkThemeLine line); [|reflexivity].
      destruct (i + 1 =? -1) eqn:E2; [apply Z.eqb_eq in E2; lia | reflexivity].
    + now rewrite E1.
  - rewrite Hstep. simpl.
    destruct (darkThemeLine line); [|reflexivity].
    destruct (i + 1 =? -1) eqn:E2; [apply Z.eqb_eq in E2; lia | reflexivity].
Qed.

(** [currentBlockType] is ['dark-theme'] only after a [.dark-theme] line
    was recorded. *)
Lemma sectionStep_darkTheme_recorded st n line st' :
  1 <= n ->
  (Loc.currentBlockType st = Some KDarkTheme -> 1 <= Loc.darkThemeStartLine st) ->
  sectionStep st n line = Continue st' ->
  Loc.currentBlockType st' = Some KDarkTheme -> 1 <= Loc.darkThemeStartLine st'.
Proof.
  intros Hn Hinv.
  step_cases st line; intros H; inversion H; subst; simpl;
    auto; discriminate.
Qed.

Lemma sectionPrefix_darkTheme_recorded lines : forall i st st',
  0 <= i ->
  (Loc.currentBlockType st = Some KDarkTheme -> 1 <= Loc.darkThemeStartLine st) ->
  sectionPrefix lines i st = Some st' ->
  Loc.currentBlockType st' = Some KDarkTheme -> 1 <= Loc.darkThemeStartLine st'.
Proof.
  induction lines as [|line rest IH]; intros i st st' Hi Hinv H; simpl in H.
  - now injection H as <-.
  - destruct (sectionStep st (i + 1) line) as [st1|st1] eqn:E; [|discriminate].
    apply (IH (i + 1) st1 st'); [lia | | assumption].
    eapply sectionStep_darkTheme_recorded; eauto. lia.
Qed.

Lemma extract_none_iff css :
  extractDesignTokenSection css = None
  <-> Loc.themeStartLine (sectionLoop (split NL css) 0 Loc.init) = -1
      \/ Loc.darkThemeEndLine (sectionLoop (split NL css) 0 Loc.init) = -1.
Proof.
  unfold extractDesignTokenSection. cbv zeta.
  destruct ((Loc.themeStartLine (sectionLoop (split NL css) 0 Loc.init) =? -1)
            || (Loc.darkThemeEndLine (sectionLoop (split NL css) 0 Loc.init)
                =? -1)) eqn:E.
  - rewrite orb_true_iff, !Z.eqb_eq in E. tauto.
  - rewrite orb_false_iff, !Z.eqb_neq in E. split; [discriminate | tauto].
Qed.

(** The loop never [break]s exactly when it leaves [darkThemeEndLine]
    at [-1]. *)
Lemma no_break_iff lines :
  Loc.darkThemeEndLine (sectionLoop lines 0 Loc.init) = -1
  <-> exists st, sectionPrefix lines 0 Loc.init = Some st.
Proof.
  split.
  - intros Hend.
    destruct (sectionLoop_decompose lines 0 Loc.init)
      as [H|(pre & line & post & st' & _ & _ & Hbreak & _)]; [eauto|].
    apply sectionStep_break in Hbreak as [Hfinal _].
    rewrite Hfinal in Hend. simpl in Hend. lia.
  - intros [st Hst].
    destruct (sectionPrefix_loop _ _ _ _ Hst) as [-> _].
    now rewrite (sectionPrefix_end _ _ _ _ Hst).
Qed.

(** The anatomy of a successful call: the document splits at the line of
    the [break]; the start line is the first [@theme] line before it. *)
Lemma extract_some css r :
  extractDesignTokenSection css = Some r ->
  exists pre line post st,
    split NL css = pre ++ line :: post
    /\ sectionPrefix pre 0 Loc.init = Some st
    /\ sectionStep st (Z.of_nat (length pre) + 1) line
       = Break (sectionLoop (split NL css) 0 Loc.init)
    /\ visitedLines (split NL css) 0 Loc.init = pre ++ [line]
    /\ Section_.endLine r = Z.of_nat (length pre) + 1
    /\ 1 <= Section_.startLine r /\ Section_.startLine r <= Z.of_nat (length pre)
    /\ 1 <= Loc.darkThemeStartLine st
    /\ r = Section_.mk (Loc.themeStartLine st) (Z.of_nat (length pre) + 1)
             (join newline (slice (split NL css) (Loc.themeStartLine st - 1)
                              (Z.of_nat (length pre) + 1)))
             (Anchors.mk (Loc.themeStartLine st) (Loc.rootStartLine st)
                (Loc.darkThemeStartLine st) (Z.of_nat (length pre) + 1)).
Proof.
  intros Hr.
  assert (Hsome : extractDesignTokenSection css <> None) by congruence.
  rewrite extract_none_iff in Hsome.
  unfold extractDesignTokenSection in Hr. cbv zeta in Hr.
  set (lines := split NL css) in *.
  set (final := sectionLoop lines 0 Loc.init) in *.
  destruct ((Loc.themeStartLine final =? -1)
            || (Loc.darkThemeEndLine final =? -1)); [discriminate|].
  injection Hr as <-.
  destruct (sectionLoop_decompose lines 0 Loc.init)
    as [H|(pre & line & post & st & Hsplit & Hpre & Hbreak & Hvis)].
  - elim Hsome. right. apply no_break_iff. eauto.
  - fold final in Hbreak. rewrite Z.add_0_l in Hbreak.
    exists pre, line, post, st.
    destruct (sectionStep_break _ _ _ _ Hbreak)
      as (Hfinal & _ & Hkind & _).
    assert (Htheme : Loc.themeStartLine final = Loc.themeStartLine st)
      by now rewrite Hfinal.
    destruct (sectionPrefix_loop _ _ _ _ Hpre) as [Hloop Hvisited].
    pose proof (sectionLoop_themeStartLine pre 0 Loc.init (Z.le_refl 0)) as Hfirst.
    rewrite Hloop, Hvisited in Hfirst. simpl in Hfirst.
    destruct (firstMatchFrom_range themeLine pre 0 (Z.le_refl 0)) as [Hnone|Hin].
    + elim Hsome. left. congruence.
    + assert (Hdark : 1 <= Loc.darkThemeStartLine st).
      { apply (sectionPrefix_darkTheme_recorded pre 0 Loc.init st);
          [lia | discriminate | assumption | assumption]. }
      split; [exact Hsplit|]. split; [exact Hpre|].
      split; [exact Hbreak|]. split; [exact Hvis|].
      rewrite Hfinal. simpl. rewrite Hfirst.
      repeat split; auto; lia.
Qed.

(** The result of a call, from the split of the document at the line of
    the [break]. *)
Lemma extract_of_break css pre line post st final :
  split NL css = pre ++ line :: post ->
  sectionPrefix pre 0 Loc.init = Some st ->
  sectionStep st (Z.of_nat (length pre) + 1) line = Break final ->
  1 <= Loc.themeStartLine st -> Loc.themeStartLine st <= Z.of_nat (length pre) ->
  extractDesignTokenSection css
  = Some (Section_.mk (Loc.themeStartLine st) (Z.of_nat (length pre) + 1)
            (join newline
               (skipn (Z.to_nat (Loc.themeStartLine st - 1)) (pre ++ [line])))
            (Anchors.mk (Loc.themeStartLine st) (Loc.rootStartLine st)
               (Loc.darkThemeStartLine st) (Z.of_nat (length pre) + 1))).
Proof.
  intros Hsplit Hpre Hbreak Hlo Hhi.
  unfold extractDesignTokenSection. cbv zeta. rewrite Hsplit.
  rewrite (sectionLoop_break_app pre 0 Loc.init st line post final Hpre)
    by (now rewrite Z.add_0_l).
  apply sectionStep_break in Hbreak as [-> _]. simpl.
  destruct (Loc.themeStartLine st =? -1) eqn:E1;
    [apply Z.eqb_eq in E1; lia|].
  destruct (Z.of_nat (length pre) + 1 =? -1) eqn:E2;
    [apply Z.eqb_eq in E2; lia|].
  simpl. do 3 f_equal.
  rewrite slice_of_prefix by (try rewrite length_app; simpl; lia).
  f_equal.
  replace (Z.to_nat (Z.of_nat (length pre) + 1)) with (length pre + 1)%nat
    by lia.
  now rewrite firstn_app_2.
Qed.

(** C9: the bounds of a returned section satisfy
    [1 <= startLine < endLine <= lineCount css], so [replaceLines] on the
    same document accepts them, whatever the replacement. *)
Theorem section_bounds_fit_replaceLines (css : jsstring) (r : Section_.t) :
  extractDesignTokenSection css = Some r ->
  1 <= Section_.startLine r
  /\ Section_.startLine r < Section_.endLine r
  /\ Section_.endLine r <= lineCount css
  /\ forall X,
       replaceLines css (Section_.startLine r) (Section_.endLine r) X
       = Ok (join newline
               (splicedLines css (Section_.startLine r) (Section_.endLine r) X)).
Proof.
  intros Hr.
  destruct (extract_some css r Hr)
    as (pre & line & post & st & Hsplit & _ & _ & _ & He & Hlo & Hhi & _).
  assert (Hcount : Section_.endLine r <= lineCount css).
  { unfold lineCount. rewrite Hsplit, length_app. simpl. lia. }
  repeat split; try lia.
  intros X. apply replaceLines_valid; lia.
Qed.

Lemma section_bounds_fit_replaceLines_witness :
  extractDesignTokenSection e2eDocument = Some e2eSection
  /\ 1 <= Section_.startLine e2eSection
  /\ Section_.startLine e2eSection < Section_.endLine e2eSection
  /\ Section_.endLine e2eSection <= lineCount e2eDocument
  /\ forall X,
       replaceLines e2eDocument (Section_.startLine e2eSection)
         (Section_.endLine e2eSection) X
       = Ok (join newline
               (splicedLines e2eDocument (Section_.startLine e2eSection)
                  (Section_.endLine e2eSection) X)).
Proof.
  assert (H : extractDesignTokenSection e2eDocument = Some e2eSection)
    by (vm_compute; reflexivity).
  split; [exact H|].
  exact (section_bounds_fit_replaceLines e2eDocument e2eSection H).
Defined.


(** The visited lines are an initial segment of the array. *)
Lemma visitedLines_prefix lines : forall i st,
  exists rest, lines = visitedLines lines i st ++ rest.
Proof.
  induction lines as [|line rest IH]; intros i st; [now exists []|].
  cbn [visitedLines].
  destruct (sectionStep st (i + 1) line) as [st1|st1].
  - destruct (IH (i + 1) st1) as [tl Htl]. exists tl.
    simpl. now rewrite <- Htl.
  - now exists rest.
Qed.

Lemma Forall_visited (P : jsstring -> Prop) lines i st :
  Forall P lines -> Forall P (visitedLines lines i st).
Proof.
  intros H. destruct (visitedLines_prefix lines i st) as [rest Hrest].
  rewrite Hrest in H. now apply Forall_app in H.
Qed.

(** The anchors of a returned section, read off the visited lines. *)
Lemma extract_anchors css r :
  extractDesignTokenSection css = Some r ->
  visitedLines (split NL css) 0 Loc.init
  = firstn (Z.to_nat (Section_.endLine r)) (split NL css)
  /\ Anchors.theme (Section_.blocks r)
     = firstMatchFrom themeLine (visitedLines (split NL css) 0 Loc.init) 0
  /\ Anchors.root (Section_.blocks r)
     = firstMatchFrom rootLine (visitedLines (split NL css) 0 Loc.init) 0
  /\ Anchors.darkTheme (Section_.blocks r)
     = lastMatchFrom darkThemeLine (visitedLines (split NL css) 0 Loc.init) 0
  /\ Anchors.theme (Section_.blocks r) = Section_.startLine r
  /\ Anchors.darkThemeEnd (Section_.blocks r) = Section_.endLine r
  /\ 1 <= Anchors.darkTheme (Section_.blocks r).
Proof.
  intros Hr.
  destruct (extract_some css r Hr)
    as (pre & line & post & st & Hsplit & _ & Hbreak & Hvis & He & _ & _
        & Hdark & Hshape).
  assert (Htake : firstn (Z.to_nat (Section_.endLine r)) (split NL css)
                  = pre ++ [line]).
  { rewrite He, Hsplit.
    replace (Z.to_nat (Z.of_nat (length pre) + 1)) with (length pre + 1)%nat
      by lia.
    now rewrite firstn_app_2. }
  rewrite <- Htake in Hvis.
  apply sectionStep_break in Hbreak as [Hfinal _].
  pose proof (sectionLoop_themeStartLine (split NL css) 0 Loc.init
                (Z.le_refl 0)) as Htheme.
  pose proof (sectionLoop_rootStartLine (split NL css) 0 Loc.init
                (Z.le_refl 0)) as Hroot.
  pose proof (sectionLoop_darkThemeStartLine (split NL css) 0 Loc.init
                (Z.le_refl 0)) as Hlast.
  rewrite Hfinal in Htheme, Hroot, Hlast. simpl in Htheme, Hroot, Hlast.
  split; [exact Hvis|].
  rewrite Hshape. simpl.
  repeat split; auto.
  destruct (lastMatchFrom darkThemeLine
              (visitedLines (split NL css) 0 Loc.init) 0 =? -1) eqn:E;
    [| exact Hlast].
  apply Z.eqb_eq in E. congruence.
Qed.


(** C2: the code does not keep to it.  On [nestedDarkTheme] the scan is
    inside the block opened by the first [.dark-theme] line (line 3) when
    line 4, which also starts with [.dark-theme], is taken as a fresh
    anchor start: it replaces line 3 as the recorded dark-theme start and
    resets the depth, so the scan stops on line 5 and the returned section
    leaves out line 6, the brace that closes the block opened on line 3. *)
Lemma dark_theme_anchor_taken_inside_block :
  exists st st',
    sectionPrefix (firstn 3 (split NL nestedDarkTheme)) 0 Loc.init = Some st
    /\ Loc.inBlock st = true
    /\ Loc.currentBlockType st = Some KDarkTheme
    /\ Loc.darkThemeStartLine st = 3
    /\ lineAt (split NL nestedDarkTheme) 4 = Some (lit ".dark-theme .x {")
    /\ sectionStep st 4 (lit ".dark-theme .x {") = Continue st'
    /\ Loc.darkThemeStartLine st' = 4
    /\ Loc.braceDepth st' = 1
    /\ firstMatchFrom darkThemeLine (split NL nestedDarkTheme) 0 = 3
    /\ extractDesignTokenSection nestedDarkTheme = Some nestedSection
    /\ Anchors.darkTheme (Section_.blocks nestedSection) = 4
    /\ Section_.endLine nestedSection = 5
    /\ lineCount nestedDarkTheme = 6
    /\ lineAt (split NL nestedDarkTheme) 6 = Some (lit "}")
    /\ sumDelta (linesBetween (split NL nestedDarkTheme) 3 5) = 1
    /\ sumDelta (linesBetween (split NL nestedDarkTheme) 3 6) = 0.
Proof.
  do 2 eexists. repeat split; vm_compute; reflexivity.
Qed.

(** C1 as stated fails: in the document of the end-to-end scenario the
    closing brace of [.dark-theme] is line 10 and line 9 is the declaration
    before it, so the section ends on line 10, and replacing lines 1-9
    leaves that brace between the two expected lines. *)
Lemma e2e_section_does_not_end_on_line_9 :
  lineAt (split NL e2eDocument) 9 = Some (lit "  --bg: #000;")
  /\ lineAt (split NL e2eDocument) 10 = Some (lit "}")
  /\ extractDesignTokenSection e2eDocument = Some e2eSection
  /\ extractDesignTokenSection e2eDocumentNL = Some e2eSection
  /\ Section_.endLine e2eSection = 10
  /\ ~ (exists r, extractDesignTokenSection e2eDocument = Some r
                  /\ Section_.endLine r = 9)
  /\ replaceLines e2eDocument 1 9 (lit "@theme{}")
     = Ok (join newline [lit "@theme{}"; lit "}";
                         lit ".more-unrelated { color: green; }"])
  /\ replaceLines e2eDocumentNL 1 9 (lit "@theme{}")
     = Ok (join newline [lit "@theme{}"; lit "}";
                         lit ".more-unrelated { color: green; }"; []]).
Proof.
  assert (H : extractDesignTokenSection e2eDocument = Some e2eSection)
    by (vm_compute; reflexivity).
  split; [vm_compute; reflexivity|]. split; [vm_compute; reflexivity|].
  split; [exact H|]. split; [vm_compute; reflexivity|].
  split; [reflexivity|].
  split; [|split; vm_compute; reflexivity].
  intros [r [Hr He]]. rewrite H in Hr. injection Hr as <-. discriminate.
Qed.

(** C1, amended: the section of the end-to-end document spans lines 1
    to 10, line 10 being the closing brace of [.dark-theme], and its
    content holds the [.unrelated] rule; replacing lines 1-10 by
    [@theme{}] leaves [@theme{}] followed by the [.more-unrelated] rule:
    two lines, or three with the empty line after a final newline. *)
Theorem e2e_scenario :
  extractDesignTokenSection e2eDocument = Some e2eSection
  /\ extractDesignTokenSection e2eDocumentNL = Some e2eSection
  /\ Section_.startLine e2eSection = 1
  /\ Section_.endLine e2eSection = 10
  /\ lineAt (split NL e2eDocument) 10 = Some (lit "}")
  /\ lineAt (split NL e2eDocument) 8 = Some (lit ".dark-theme {")
  /\ Section_.content e2eSection = sliceLines e2eDocument 1 10
  /\ includes (Section_.content e2eSection) (lit ".unrelated { color: blue; }")
     = true
  /\ includes (Section_.content e2eSection) (lit ".more-unrelated") = false
  /\ replaceLines e2eDocument 1 10 (lit "@theme{}")
     = Ok (join newline [lit "@theme{}";
                         lit ".more-unrelated { color: green; }"])
  /\ replaceLines e2eDocumentNL 1 10 (lit "@theme{}")
     = Ok (join newline [lit "@theme{}";
                         lit ".more-unrelated { color: green; }"; []])
  /\ lineCount (join newline [lit "@theme{}";
                              lit ".more-unrelated { color: green; }"; []]) = 3.
Proof.
  repeat split; vm_compute; reflexivity.
Qed.

(** ** replaceLines: reading back and undoing a replacement *)

Lemma splicedLines_middle D s e X :
  1 <= s -> s <= e -> e <= lineCount D ->
  slice (splicedLines D s e X) (s - 1) (s + lineCount X - 1) = split NL X.
Proof.
  intros Hs Hse He.
  pose proof (splicedLines_length D s e X Hs Hse He) as Hlen.
  pose proof (lineCount_pos X) as HX.
  unfold lineCount in *.
  rewrite slice_inside by lia.
  unfold splicedLines.
  assert (Hpre : length (firstn (Z.to_nat (s - 1)) (split NL D))
                 = Z.to_nat (s - 1)) by (apply firstn_length_le; lia).
  rewrite skipn_app, Hpre, Nat.sub_diag, skipn_O.
  rewrite (skipn_all2 (firstn _ _)) by lia. simpl app.
  replace (Z.to_nat (s + Z.of_nat (length (split NL X)) - 1 - (s - 1)))
    with (length (split NL X) + 0)%nat by lia.
  now rewrite firstn_app_2, firstn_O, app_nil_r.
Qed.

(** Lines [s .. s + n - 1] of the result, [n] being the number of lines
    of the replacement, are the replacement itself. *)
Theorem replaceLines_read_back (D X : jsstring) (s e : Z) :
  1 <= s -> s <= e -> e <= lineCount D ->
  exists out,
    replaceLines D s e X = Ok out
    /\ sliceLines out s (s + lineCount X - 1) = X.
Proof.
  intros Hs Hse He. exists (join newline (splicedLines D s e X)).
  split; [now apply replaceLines_valid|].
  unfold sliceLines. rewrite splicedLines_split.
  rewrite splicedLines_middle by assumption.
  apply join_split.
Qed.

Lemma replaceLines_read_back_witness :
  exists out,
    replaceLines fiveLines 2 3 (lit "x") = Ok out
    /\ sliceLines out 2 (2 + lineCount (lit "x") - 1) = lit "x".
Proof.
  apply (replaceLines_read_back fiveLines (lit "x") 2 3);
    vm_compute; discriminate.
Defined.

(** Putting the original lines [s..e] back over the replacement gives the
    original document again. *)
Theorem replaceLines_undo (D X : jsstring) (s e : Z) :
  1 <= s -> s <= e -> e <= lineCount D ->
  exists out,
    replaceLines D s e X = Ok out
    /\ replaceLines out s (s + lineCount X - 1) (sliceLines D s e) = Ok D.
Proof.
  intros Hs Hse He. exists (join newline (splicedLines D s e X)).
  split; [now apply replaceLines_valid|].
  pose proof (splicedLines_length D s e X Hs Hse He) as Hlen.
  pose proof (lineCount_pos X) as HX.
  assert (Hcount : lineCount (join newline (splicedLines D s e X))
                   = lineCount D - (e - s + 1) + lineCount X).
  { unfold lineCount at 1. now rewrite splicedLines_split. }
  rewrite replaceLines_valid by lia. f_equal.
  unfold splicedLines at 1. rewrite splicedLines_split.
  rewrite slice_lines_split by assumption.
  unfold lineCount in *.
  assert (Hpre : length (firstn (Z.to_nat (s - 1)) (split NL D))
                 = Z.to_nat (s - 1)) by (apply firstn_length_le; lia).
  assert (Hfirst : firstn (Z.to_nat (s - 1)) (splicedLines D s e X)
                   = slice (split NL D) 0 (s - 1)).
  { rewrite slice_prefix by lia. unfold splicedLines.
    rewrite firstn_app, Hpre, Nat.sub_diag, firstn_O, app_nil_r.
    apply firstn_all2. lia. }
  assert (Hlast : skipn (Z.to_nat (s + Z.of_nat (length (split NL X)) - 1))
                    (splicedLines D s e X)
                  = sliceFrom (split NL D) e).
  { rewrite sliceFrom_inside by lia. unfold splicedLines.
    rewrite app_assoc, skipn_app.
    rewrite (skipn_all2 (firstn _ _ ++ split NL X))
      by (rewrite length_app, Hpre; lia).
    rewrite length_app, Hpre. simpl.
    replace (Z.to_nat (s + Z.of_nat (length (split NL X)) - 1)
             - (Z.to_nat (s - 1) + length (split NL X)))%nat
      with 0%nat by lia.
    reflexivity. }
  rewrite Hfirst, Hlast, slice_split3 by lia.
  apply join_split.
Qed.

Lemma replaceLines_undo_witness :
  exists out,
    replaceLines fiveLines 2 3 (lit "x") = Ok out
    /\ replaceLines out 2 (2 + lineCount (lit "x") - 1)
         (sliceLines fiveLines 2 3) = Ok fiveLines.
Proof.
  apply (replaceLines_undo fiveLines (lit "x") 2 3); vm_compute; discriminate.
Defined.

(** Replacing every line of a document leaves the replacement alone; the
    empty document counts as one (empty) line. *)
Theorem replaceLines_whole_document (D X : jsstring) :
  replaceLines D 1 (lineCount D) X = Ok X
  /\ replaceLines [] 1 1 X = Ok X.
Proof.
  assert (H : forall D', replaceLines D' 1 (lineCount D') X = Ok X).
  { intros D'. pose proof (lineCount_pos D') as Hpos.
    rewrite replaceLines_valid by lia. f_equal.
    unfold splicedLines, lineCount. simpl firstn.
    rewrite Nat2Z.id, skipn_all, app_nil_r. simpl. apply join_split. }
  split; [apply H | apply (H [])].
Qed.

(** ** extractThemeBlocks: what the emitted blocks are *)

Lemma lineAt_Some all n line :
  lineAt all n = Some line ->
  1 <= n /\ n <= Z.of_nat (length all)
  /\ nth_error all (Z.to_nat (n - 1)) = Some line.
Proof.
  unfold lineAt. destruct (n <? 1) eqn:E; [discriminate|].
  apply Z.ltb_ge in E. intros H. split; [exact E|]. split; [|exact H].
  assert (Hlt : (Z.to_nat (n - 1) < length all)%nat)
    by (apply nth_error_Some; congruence).
  lia.
Qed.

Lemma lineAt_In all n line : lineAt all n = Some line -> In line all.
Proof.
  intros H. apply lineAt_Some in H as (_ & _ & H).
  eapply nth_error_In; eauto.
Qed.

Lemma firstn_snoc {A : Type} (l : list A) (n : nat) (x : A) :
  nth_error l n = Some x -> firstn (S n) l = firstn n l ++ [x].
Proof.
  revert n. induction l as [|a l IH]; intros [|n] H; simpl in *;
    try discriminate.
  - now injection H as ->.
  - f_equal. now apply IH.
Qed.

Lemma linesBetween_snoc all s i line :
  0 <= i -> 1 <= s -> s <= i + 1 -> lineAt all (i + 1) = Some line ->
  linesBetween all s (i + 1) = linesBetween all s i ++ [line].
Proof.
  intros Hi Hs Hsi Hline. apply lineAt_Some in Hline as (_ & Hlen & Hnth).
  replace (i + 1 - 1) with i in Hnth by lia.
  unfold linesBetween.
  replace (Z.to_nat (i + 1)) with (S (Z.to_nat i)) by lia.
  rewrite (firstn_snoc _ _ _ Hnth), skipn_app.
  rewrite firstn_length_le by lia.
  replace (Z.to_nat (s - 1) - Z.to_nat i)%nat with 0%nat by lia.
  reflexivity.
Qed.

Lemma linesBetween_single all i line :
  0 <= i -> lineAt all (i + 1) = Some line ->
  linesBetween all (i + 1) (i + 1) = [line].
Proof.
  intros Hi Hline.
  rewrite (linesBetween_snoc all (i + 1) i line) by (assumption || lia).
  apply lineAt_Some in Hline as (_ & Hlen & _).
  unfold linesBetween. rewrite skipn_all2; [reflexivity|].
  rewrite firstn_length_le by lia. lia.
Qed.

Lemma linesBetween_length all s k :
  1 <= s -> s <= k + 1 -> k <= Z.of_nat (length all) ->
  Z.of_nat (length (linesBetween all s k)) = k - s + 1.
Proof.
  intros Hs Hsk Hk. unfold linesBetween.
  rewrite length_skipn, firstn_length_le by lia. lia.
Qed.

Lemma linesBetween_slice all s k :
  1 <= s -> s <= k + 1 -> k <= Z.of_nat (length all) ->
  linesBetween all s k = slice all (s - 1) k.
Proof.
  intros Hs Hsk Hk. unfold linesBetween. now rewrite slice_of_prefix by lia.
Qed.

Lemma sumDelta_app a b : sumDelta (a ++ b) = sumDelta a + sumDelta b.
Proof. induction a as [|x a IH]; simpl; lia. Qed.

Lemma chain_snoc bs : forall lo b,
  chain lo bs -> lastEnd lo bs < Block.startLine b ->
  Block.startLine b < Block.endLine b ->
  chain lo (bs ++ [b]) /\ lastEnd lo (bs ++ [b]) = Block.endLine b.
Proof.
  induction bs as [|a bs IH]; intros lo b Hchain Hlast Hb; simpl in *.
  - auto.
  - destruct Hchain as (H1 & H2 & H3).
    destruct (IH (Block.endLine a) b H3 Hlast Hb) as [H4 H5]. auto.
Qed.

Lemma chain_lastEnd bs : forall lo, chain lo bs -> lo <= lastEnd lo bs.
Proof.
  induction bs as [|a bs IH]; intros lo H; simpl in *; [lia|].
  destruct H as (H1 & H2 & H3). specialize (IH _ H3). lia.
Qed.

Lemma themeBlocksStep_ok all i line st :
  0 <= i -> lineAt all (i + 1) = Some line ->
  scanOk all i st -> scanOk all (i + 1) (themeBlocksStep st (i + 1) line).
Proof.
  intros Hi Hline (Hblocks & Hopen & Hchain & Hlast & Hsep).
  pose proof (lineAt_Some _ _ _ Hline) as (_ & Hlen & _).
  unfold themeBlocksStep.
  destruct (Scan.inBlock st) eqn:Hin; simpl negb; cbv iota.
  - (* inside a block *)
    rewrite andb_false_l.
    destruct (Hopen Hin) as (Hs1 & Hs2 & Hcontent & Hanchor & Hdepth & Hnz).
    specialize (Hsep eq_refl).
    assert (Hcontent' : Scan.blockContent st ++ [line]
                        = linesBetween all (Scan.blockStartLine st) (i + 1)).
    { rewrite (linesBetween_snoc all _ i line) by (assumption || lia).
      now rewrite Hcontent. }
    assert (Hdepth' : Scan.braceDepth st + matchCount LBRACE line
                      - matchCount RBRACE line
                      = sumDelta (Scan.blockContent st ++ [line])).
    { rewrite sumDelta_app, Hdepth. simpl. unfold braceDelta. lia. }
    assert (Hlong : (1 <? Z.of_nat (length (Scan.blockContent st ++ [line])))
                    = true).
    { apply Z.ltb_lt. rewrite Hcontent', linesBetween_length by lia. lia. }
    rewrite Hlong, andb_true_r.
    destruct (Scan.braceDepth st + matchCount LBRACE line
              - matchCount RBRACE line =? 0) eqn:Hzero.
    + apply Z.eqb_eq in Hzero.
      set (b := Block.mk (Scan.blockType st) (Scan.blockStartLine st) (i + 1)
                  (join newline (Scan.blockContent st ++ [line]))).
      destruct (chain_snoc (Scan.blocks st) 0 b Hchain) as [Hc1 Hc2];
        [simpl; lia | simpl; lia |].
      unfold scanOk, openOk. simpl.
      split; [|split; [discriminate|split; [exact Hc1|split;
                [rewrite Hc2; simpl; lia | discriminate]]]].
      apply Forall_app. split; [exact Hblocks|].
      constructor; [|constructor].
      unfold blockOk. simpl. rewrite <- Hcontent'.
      repeat split; try lia; auto.
      intros k Hk1 Hk2. apply Hnz; lia.
    + apply Z.eqb_neq in Hzero.
      unfold scanOk, openOk. simpl.
      split; [exact Hblocks|].
      split; [|split; [exact Hchain|split; [lia|intros _; exact Hsep]]].
      intros _. repeat split; try lia; auto.
      intros k Hk1 Hk2.
      destruct (Z.eq_dec k (i + 1)) as [->|Hne].
      * rewrite <- Hcontent'. lia.
      * apply Hnz; lia.
  - (* outside any block *)
    rewrite andb_true_l.
    destruct (startsWith (trim line) (lit "@theme")) eqn:Hanchor.
    + unfold scanOk, openOk. simpl.
      split; [exact Hblocks|].
      split; [|split; [exact Hchain|split; [lia|intros _; lia]]].
      intros _. rewrite (linesBetween_single all i line) by assumption.
      repeat split; try lia.
      * exists line. auto.
      * simpl. unfold braceDelta. lia.
    + unfold scanOk, openOk.
      split; [exact Hblocks|].
      split; [rewrite Hin; discriminate|].
      split; [exact Hchain|]. split; [lia|]. rewrite Hin. discriminate.
Qed.

Lemma themeBlocksLoop_ok lines : forall pre st,
  scanOk (pre ++ lines) (Z.of_nat (length pre)) st ->
  scanOk (pre ++ lines) (Z.of_nat (length (pre ++ lines)))
    (themeBlocksLoop lines (Z.of_nat (length pre)) st).
Proof.
  induction lines as [|line rest IH]; intros pre st Hok.
  - simpl. now rewrite app_nil_r in *.
  - cbn [themeBlocksLoop].
    assert (Hline : lineAt (pre ++ line :: rest) (Z.of_nat (length pre) + 1)
                    = Some line).
    { unfold lineAt.
      destruct (Z.of_nat (length pre) + 1 <? 1) eqn:E;
        [apply Z.ltb_lt in E; lia|].
      replace (Z.to_nat (Z.of_nat (length pre) + 1 - 1)) with (length pre)
        by lia.
      now rewrite nth_error_app2, Nat.sub_diag by lia. }
    pose proof (themeBlocksStep_ok _ _ _ _ (Nat2Z.is_nonneg _) Hline Hok)
      as Hstep.
    replace (pre ++ line :: rest) with ((pre ++ [line]) ++ rest) in *
      by now rewrite <- app_assoc.
    replace (Z.of_nat (length pre) + 1)
      with (Z.of_nat (length (pre ++ [line]))) in *
      by (rewrite length_app; simpl; lia).
    now apply IH.
Qed.

Lemma extractThemeBlocks_ok css :
  Forall (blockOk (split NL css)) (extractThemeBlocks css)
  /\ chain 0 (extractThemeBlocks css).
Proof.
  assert (H0 : scanOk ([] ++ split NL css) (Z.of_nat (length (@nil jsstring)))
                 Scan.init).
  { unfold scanOk, openOk. simpl.
    repeat split; try constructor; try discriminate; lia. }
  apply themeBlocksLoop_ok in H0. simpl in H0.
  destruct H0 as (H1 & _ & H2 & _). split; assumption.
Qed.

Lemma replaceLines_sliceLines D s e :
  1 <= s -> s <= e -> e <= lineCount D ->
  replaceLines D s e (sliceLines D s e) = Ok D.
Proof.
  intros Hs Hse He.
  rewrite replaceLines_valid by assumption. f_equal.
  unfold splicedLines. rewrite slice_lines_split by assumption.
  unfold lineCount in He.
  rewrite <- (slice_prefix (split NL D) (s - 1)) by lia.
  rewrite <- (sliceFrom_inside (split NL D) e) by lia.
  rewrite slice_split3 by lia.
  apply join_split.
Qed.

Lemma extractThemeBlocks_blockOk css b :
  In b (extractThemeBlocks css) -> blockOk (split NL css) b.
Proof.
  intros Hb. destruct (extractThemeBlocks_ok css) as [Hall _].
  rewrite Forall_forall in Hall. now apply Hall.
Qed.

(** The content of an emitted block is the text of lines
    [startLine..endLine] of the document, so writing it back over those
    lines leaves the document unchanged. *)
Theorem themeBlock_content_is_its_lines (css : jsstring) (b : Block.t) :
  In b (extractThemeBlocks css) ->
  Block.content b = sliceLines css (Block.startLine b) (Block.endLine b)
  /\ replaceLines css (Block.startLine b) (Block.endLine b) (Block.content b)
     = Ok css.
Proof.
  intros Hb.
  destruct (extractThemeBlocks_blockOk css b Hb)
    as (H1 & H2 & H3 & Hcontent & _).
  assert (Heq : Block.content b
                = sliceLines css (Block.startLine b) (Block.endLine b)).
  { rewrite Hcontent. unfold sliceLines.
    now rewrite linesBetween_slice by lia. }
  split; [exact Heq|].
  rewrite Heq. apply replaceLines_sliceLines; unfold lineCount; lia.
Qed.

Lemma themeBlock_content_is_its_lines_witness :
  Block.content mainBlock
  = sliceLines twoThemes (Block.startLine mainBlock) (Block.endLine mainBlock)
  /\ replaceLines twoThemes (Block.startLine mainBlock)
       (Block.endLine mainBlock) (Block.content mainBlock)
     = Ok twoThemes.
Proof.
  apply (themeBlock_content_is_its_lines twoThemes mainBlock).
  vm_compute. right. left. reflexivity.
Defined.

(** An emitted block starts on a line whose trimmed text starts with
    [@theme]; its type is ['theme inline'] when that line (untrimmed)
    contains [inline] anywhere, and ['theme'] otherwise. *)
Theorem themeBlock_starts_on_anchor (css : jsstring) (b : Block.t) :
  In b (extractThemeBlocks css) ->
  exists line,
    lineAt (split NL css) (Block.startLine b) = Some line
    /\ startsWith (trim line) (lit "@theme") = true
    /\ Block.type b
       = Some (if includes line (lit "inline") then LThemeInline else LTheme).
Proof.
  intros Hb.
  destruct (extractThemeBlocks_blockOk css b Hb) as (_ & _ & _ & _ & H & _).
  exact H.
Qed.

Lemma themeBlock_starts_on_anchor_witness :
  exists line,
    lineAt (split NL twoThemes) (Block.startLine inlineBlock) = Some line
    /\ startsWith (trim line) (lit "@theme") = true
    /\ Block.type inlineBlock
       = Some (if includes line (lit "inline") then LThemeInline else LTheme).
Proof.
  apply (themeBlock_starts_on_anchor twoThemes inlineBlock).
  vm_compute. left. reflexivity.
Defined.

(** An emitted block ends on the first line after its anchor line at which
    the braces counted from the anchor line on balance. *)
Theorem themeBlock_ends_at_first_balance (css : jsstring) (b : Block.t) :
  In b (extractThemeBlocks css) ->
  sumDelta (linesBetween (split NL css) (Block.startLine b) (Block.endLine b))
  = 0
  /\ forall k,
       Block.startLine b < k -> k < Block.endLine b ->
       sumDelta (linesBetween (split NL css) (Block.startLine b) k) <> 0.
Proof.
  intros Hb.
  destruct (extractThemeBlocks_blockOk css b Hb)
    as (_ & _ & _ & _ & _ & H1 & H2).
  split; assumption.
Qed.

Lemma themeBlock_ends_at_first_balance_witness :
  sumDelta (linesBetween (split NL twoThemes) (Block.startLine mainBlock)
              (Block.endLine mainBlock)) = 0
  /\ forall k,
       Block.startLine mainBlock < k -> k < Block.endLine mainBlock ->
       sumDelta (linesBetween (split NL twoThemes)
                   (Block.startLine mainBlock) k) <> 0.
Proof.
  apply (themeBlock_ends_at_first_balance twoThemes mainBlock).
  vm_compute. right. left. reflexivity.
Defined.

Lemma chain_lo bs : forall lo n b,
  chain lo bs -> nth_error bs n = Some b -> lo < Block.startLine b.
Proof.
  induction bs as [|a bs IH]; intros lo n b Hchain Hn.
  - destruct n; discriminate.
  - destruct Hchain as (H1 & H2 & H3). destruct n as [|n]; simpl in Hn.
    + now injection Hn as <-.
    + specialize (IH _ _ _ H3 Hn). lia.
Qed.

Lemma chain_nth bs : forall lo m n b1 b2,
  chain lo bs -> (m < n)%nat ->
  nth_error bs m = Some b1 -> nth_error bs n = Some b2 ->
  Block.endLine b1 < Block.startLine b2.
Proof.
  induction bs as [|a bs IH]; intros lo m n b1 b2 Hchain Hmn Hm Hn.
  - destruct m; discriminate.
  - destruct Hchain as (H1 & H2 & H3).
    destruct n as [|n]; [lia|]. simpl in Hn.
    destruct m as [|m]; simpl in Hm.
    + injection Hm as <-. eapply chain_lo; eauto.
    + apply (IH _ m n b1 b2 H3); [lia | assumption | assumption].
Qed.

(** Blocks come out in document order and never overlap: a block later in
    the array starts after the end of any earlier one. *)
Theorem themeBlocks_ordered_disjoint (css : jsstring) (m n : nat)
    (b1 b2 : Block.t) :
  (m < n)%nat ->
  nth_error (extractThemeBlocks css) m = Some b1 ->
  nth_error (extractThemeBlocks css) n = Some b2 ->
  Block.endLine b1 < Block.startLine b2.
Proof.
  destruct (extractThemeBlocks_ok css) as [_ Hchain].
  now apply chain_nth with (lo := 0).
Qed.

Lemma themeBlocks_ordered_disjoint_witness :
  Block.endLine inlineBlock < Block.startLine mainBlock.
Proof.
  apply (themeBlocks_ordered_disjoint twoThemes 0 1 inlineBlock mainBlock);
    [lia | reflexivity | reflexivity].
Defined.

(** A document none of whose lines starts with [@theme] (after trimming)
    has no theme block, hence no main theme block. *)
Theorem no_theme_line_no_block (css : jsstring) :
  Forall (fun l => startsWith (trim l) (lit "@theme") = false) (split NL css) ->
  extractThemeBlocks css = [] /\ extractMainThemeBlock css = None.
Proof.
  intros Hnone.
  assert (H : extractThemeBlocks css = []).
  { destruct (extractThemeBlocks css) as [|b bs] eqn:E; [reflexivity|].
    destruct (extractThemeBlocks_blockOk css b)
      as (_ & _ & _ & _ & (line & Hl & Ha & _) & _).
    - rewrite E. now left.
    - rewrite Forall_forall in Hnone.
      apply lineAt_In in Hl. specialize (Hnone _ Hl). congruence. }
  split; [exact H|]. unfold extractMainThemeBlock. now rewrite H.
Qed.

Lemma no_theme_line_no_block_witness :
  extractThemeBlocks rootOnlyDocument = []
  /\ extractMainThemeBlock rootOnlyDocument = None.
Proof.
  apply (no_theme_line_no_block rootOnlyDocument).
  vm_compute. constructor; [reflexivity | constructor].
Defined.

Lemma find_first {A : Type} (f : A -> bool) (l : list A) (x : A) :
  find f l = Some x ->
  exists before after,
    l = before ++ x :: after /\ f x = true
    /\ Forall (fun y => f y = false) before.
Proof.
  induction l as [|a l IH]; simpl; [discriminate|].
  destruct (f a) eqn:E.
  - intros H. injection H as <-. exists [], l. auto.
  - intros H. destruct (IH H) as (before & after & -> & Hx & Hb).
    exists (a :: before), after. auto.
Qed.

(** [extractMainThemeBlock] returns the first block of type ['theme']:
    every block emitted before it is inline, its anchor line does not
    contain [inline], and its bounds and content splice back into the
    document unchanged.  It returns [null] exactly when every block is an
    inline one. *)
Theorem mainThemeBlock_is_first_non_inline (css : jsstring) :
  (forall b,
      extractMainThemeBlock css = Some b ->
      (exists before after,
          extractThemeBlocks css = before ++ b :: after
          /\ Forall (fun b' => Block.type b' = Some LThemeInline) before)
      /\ Block.type b = Some LTheme
      /\ (exists line,
            lineAt (split NL css) (Block.startLine b) = Some line
            /\ startsWith (trim line) (lit "@theme") = true
            /\ includes line (lit "inline") = false)
      /\ replaceLines css (Block.startLine b) (Block.endLine b)
           (Block.content b) = Ok css)
  /\ (extractMainThemeBlock css = None
      <-> Forall (fun b => Block.type b = Some LThemeInline)
            (extractThemeBlocks css)).
Proof.
  assert (Hlabel : forall b, In b (extractThemeBlocks css) ->
            (match Block.type b with
             | Some l => ThemeLabel_eqb l LTheme
             | None => false
             end = false) -> Block.type b = Some LThemeInline).
  { intros b Hb Hf.
    destruct (extractThemeBlocks_blockOk css b Hb)
      as (_ & _ & _ & _ & (line & _ & _ & Ht) & _).
    rewrite Ht in *. unfold labelOf in *.
    destruct (includes line (lit "inline")); [reflexivity | discriminate]. }
  split.
  - intros b Hb. unfold extractMainThemeBlock in Hb.
    apply find_first in Hb as (before & after & Hsplit & Hx & Hbefore).
    assert (Hin : In b (extractThemeBlocks css))
      by (rewrite Hsplit; apply in_elt).
    destruct (extractThemeBlocks_blockOk css b Hin)
      as (H1 & H2 & H3 & Hcontent & (line & Hl & Ha & Ht) & _).
    split; [|split; [|split]].
    + exists before, after. split; [exact Hsplit|].
      rewrite Forall_forall in *. intros b' Hb'.
      apply Hlabel; [rewrite Hsplit; apply in_or_app; now left|].
      now apply Hbefore.
    + rewrite Ht in *. unfold labelOf in *.
      destruct (includes line (lit "inline")); [discriminate | reflexivity].
    + exists line. repeat split; auto.
      rewrite Ht in Hx. unfold labelOf in Hx.
      destruct (includes line (lit "inline")); [discriminate | reflexivity].
    + rewrite Hcontent, linesBetween_slice by lia.
      apply replaceLines_sliceLines; unfold lineCount; lia.
  - unfold extractMainThemeBlock. split.
    + intros Hnone. rewrite Forall_forall. intros b Hb.
      apply Hlabel; [exact Hb|].
      exact (find_none _ _ Hnone b Hb).
    + intros Hall.
      destruct (find _ (extractThemeBlocks css)) as [b|] eqn:E; [|reflexivity].
      apply find_some in E as [Hb Hf].
      rewrite Forall_forall in Hall. rewrite (Hall b Hb) in Hf. discriminate.
Qed.

Lemma mainThemeBlock_is_first_non_inline_witness :
  extractMainThemeBlock twoThemes = Some mainBlock
  /\ Block.type mainBlock = Some LTheme
  /\ replaceLines twoThemes (Block.startLine mainBlock)
       (Block.endLine mainBlock) (Block.content mainBlock) = Ok twoThemes.
Proof.
  assert (H : extractMainThemeBlock twoThemes = Some mainBlock)
    by (vm_compute; reflexivity).
  split; [exact H|].
  destruct (proj1 (mainThemeBlock_is_first_non_inline twoThemes) mainBlock H)
    as (_ & Ht & _ & Hr).
  split; assumption.
Defined.

(** ** extractDesignTokenSection: content and closing line *)

(** The content of a returned section is the text of its lines, so
    splicing it back over its own range leaves the document unchanged. *)
Theorem section_content_splices_back (css : jsstring) (r : Section_.t) :
  extractDesignTokenSection css = Some r ->
  Section_.content r
  = sliceLines css (Section_.startLine r) (Section_.endLine r)
  /\ replaceLines css (Section_.startLine r) (Section_.endLine r)
       (Section_.content r) = Ok css.
Proof.
  intros Hr.
  destruct (extract_some css r Hr)
    as (pre & line & post & st & Hsplit & _ & _ & _ & He & Hlo & Hhi & _
        & Hshape).
  assert (Heq : Section_.content r
                = sliceLines css (Section_.startLine r) (Section_.endLine r)).
  { rewrite Hshape. reflexivity. }
  split; [exact Heq|].
  rewrite Heq. apply replaceLines_sliceLines; try lia.
  unfold lineCount. rewrite Hsplit, length_app. simpl. lia.
Qed.

Lemma section_content_splices_back_witness :
  Section_.content e2eSection
  = sliceLines e2eDocument (Section_.startLine e2eSection)
      (Section_.endLine e2eSection)
  /\ replaceLines e2eDocument (Section_.startLine e2eSection)
       (Section_.endLine e2eSection) (Section_.content e2eSection)
     = Ok e2eDocument.
Proof.
  apply (section_content_splices_back e2eDocument e2eSection).
  vm_compute. reflexivity.
Defined.

Lemma sectionStep_darkOpenOk all i line st st' :
  0 <= i -> lineAt all (i + 1) = Some line ->
  darkOpenOk all i st ->
  sectionStep st (i + 1) line = Continue st' ->
  darkOpenOk all (i + 1) st'.
Proof.
  intros Hi Hline Hinv.
  pose proof (lineAt_Some _ _ _ Hline) as (_ & Hlen & _).
  unfold darkOpenOk in *.
  step_cases st line; intros H; inversion H; subst; clear H; simpl;
    try discriminate.
  - (* a .dark-theme line *)
    intros _. rewrite (linesBetween_single all i line) by assumption.
    repeat split; try lia.
    + exists line. auto.
    + simpl. unfold braceDelta. lia.
  - (* depth not back to zero *)
    intros Hkind. destruct (Hinv Hkind) as (_ & H1 & H2 & Hl & Hdepth & Hnz).
    apply Z.eqb_neq in Hzero.
    assert (Hsum : sumDelta (linesBetween all (Loc.darkThemeStartLine st)
                               (i + 1))
                   = Loc.braceDepth st + matchCount LBRACE line
                     - matchCount RBRACE line).
    { rewrite (linesBetween_snoc all _ i line) by (assumption || lia).
      rewrite sumDelta_app, Hdepth. simpl. unfold braceDelta. lia. }
    repeat split; try lia; auto.
    intros k Hk1 Hk2. destruct (Z.eq_dec k (i + 1)) as [->|Hne].
    + rewrite Hsum. exact Hzero.
    + apply Hnz; lia.
  - (* outside any block *)
    intros Hkind. destruct (Hinv Hkind) as (Hin' & _). congruence.
Qed.

Lemma sectionPrefix_darkOpenOk lines : forall pre rest st st',
  darkOpenOk (pre ++ lines ++ rest) (Z.of_nat (length pre)) st ->
  sectionPrefix lines (Z.of_nat (length pre)) st = Some st' ->
  darkOpenOk (pre ++ lines ++ rest) (Z.of_nat (length (pre ++ lines))) st'.
Proof.
  induction lines as [|line more IH]; intros pre rest st st' Hinv Hrun.
  - simpl in *. injection Hrun as <-. now rewrite app_nil_r.
  - cbn [sectionPrefix] in Hrun.
    destruct (sectionStep st (Z.of_nat (length pre) + 1) line) as [st1|st1]
      eqn:Hstep; [|discriminate].
    assert (Hline : lineAt (pre ++ (line :: more) ++ rest)
                      (Z.of_nat (length pre) + 1) = Some line).
    { unfold lineAt.
      destruct (Z.of_nat (length pre) + 1 <? 1) eqn:E;
        [apply Z.ltb_lt in E; lia|].
      replace (Z.to_nat (Z.of_nat (length pre) + 1 - 1)) with (length pre)
        by lia.
      now rewrite nth_error_app2, Nat.sub_diag by lia. }
    pose proof (sectionStep_darkOpenOk _ _ _ _ _ (Nat2Z.is_nonneg _) Hline
                  Hinv Hstep) as Hinv1.
    replace (pre ++ (line :: more) ++ rest)
      with ((pre ++ [line]) ++ more ++ rest) in *
      by (rewrite <- app_assoc; reflexivity).
    replace (pre ++ line :: more) with ((pre ++ [line]) ++ more)
      by (rewrite <- app_assoc; reflexivity).
    replace (Z.of_nat (length pre) + 1)
      with (Z.of_nat (length (pre ++ [line]))) in *
      by (rewrite length_app; simpl; lia).
    exact (IH (pre ++ [line]) rest st1 st' Hinv1 Hrun).
Qed.

(** A returned section ends on the first line after its recorded
    [.dark-theme] line at which the braces counted from that line on
    balance. *)
Theorem section_ends_at_first_balance (css : jsstring) (r : Section_.t) :
  extractDesignTokenSection css = Some r ->
  let lines := split NL css in
  let d := Anchors.darkTheme (Section_.blocks r) in
  let e := Section_.endLine r in
  1 <= d /\ d < e
  /\ (exists line, lineAt lines d = Some line /\ darkThemeLine line = true)
  /\ sumDelta (linesBetween lines d e) = 0
  /\ (forall k, d < k -> k < e -> sumDelta (linesBetween lines d k) <> 0).
Proof.
  intros Hr lines d e.
  destruct (extract_some css r Hr)
    as (pre & line & post & st & Hsplit & Hpre & Hbreak & _ & He & _ & _ & _
        & Hshape).
  fold lines in Hsplit.
  assert (Hd : d = Loc.darkThemeStartLine st) by (subst d; now rewrite Hshape).
  assert (Hinv : darkOpenOk lines (Z.of_nat (length pre)) st).
  { pose proof (sectionPrefix_darkOpenOk pre [] (line :: post) Loc.init st)
      as H.
    simpl in H. rewrite Hsplit. apply H; [discriminate | exact Hpre]. }
  destruct (sectionStep_break _ _ _ _ Hbreak) as (_ & _ & Hkind & Hzero & _).
  destruct (Hinv Hkind) as (_ & H1 & H2 & Hl & Hdepth & Hnz).
  assert (Hline : lineAt lines (Z.of_nat (length pre) + 1) = Some line).
  { rewrite Hsplit. unfold lineAt.
    destruct (Z.of_nat (length pre) + 1 <? 1) eqn:E;
      [apply Z.ltb_lt in E; lia|].
    replace (Z.to_nat (Z.of_nat (length pre) + 1 - 1)) with (length pre)
      by lia.
    now rewrite nth_error_app2, Nat.sub_diag by lia. }
  subst e. rewrite He, Hd.
  repeat split; try lia; auto.
  - rewrite (linesBetween_snoc lines _ (Z.of_nat (length pre)) line)
      by (assumption || lia).
    rewrite sumDelta_app, <- Hdepth. simpl. unfold braceDelta. lia.
  - intros k Hk1 Hk2. apply Hnz; lia.
Qed.

Lemma section_ends_at_first_balance_witness :
  let lines := split NL e2eDocument in
  let d := Anchors.darkTheme (Section_.blocks e2eSection) in
  let e := Section_.endLine e2eSection in
  1 <= d /\ d < e
  /\ (exists line, lineAt lines d = Some line /\ darkThemeLine line = true)
  /\ sumDelta (linesBetween lines d e) = 0
  /\ (forall k, d < k -> k < e -> sumDelta (linesBetween lines d k) <> 0).
Proof.
  apply (section_ends_at_first_balance e2eDocument e2eSection).
  vm_compute. reflexivity.
Defined.

(** ** trim *)

Lemma trimStart_ws a s :
  Forall (fun c => isWhiteSpace c = true) a -> trimStart (a ++ s) = trimStart s.
Proof.
  induction 1 as [|c a Hc _ IH]; simpl; [reflexivity|]. now rewrite Hc.
Qed.

Lemma trimStart_head c s :
  isWhiteSpace c = false -> trimStart (c :: s) = c :: s.
Proof. intros H. simpl. now rewrite H. Qed.

Lemma trimStart_suffix s :
  exists a, s = a ++ trimStart s /\ Forall (fun c => isWhiteSpace c = true) a.
Proof.
  induction s as [|c s (a & Ha & Hws)]; [now exists []|].
  simpl. destruct (isWhiteSpace c) eqn:E.
  - exists (c :: a). split; [simpl; congruence | now constructor].
  - now exists [].
Qed.

Lemma trimStart_idem s : trimStart (trimStart s) = trimStart s.
Proof.
  induction s as [|c s IH]; [reflexivity|].
  simpl. destruct (isWhiteSpace c) eqn:E; [exact IH|].
  simpl. now rewrite E.
Qed.

Lemma trimEnd_ws s b :
  Forall (fun c => isWhiteSpace c = true) b -> trimEnd (s ++ b) = trimEnd s.
Proof.
  intros H. unfold trimEnd. rewrite rev_app_distr, trimStart_ws; [reflexivity|].
  now apply Forall_rev.
Qed.

Lemma trimEnd_last s c :
  isWhiteSpace c = false -> trimEnd (s ++ [c]) = s ++ [c].
Proof.
  intros H. unfold trimEnd. rewrite rev_app_distr. simpl.
  rewrite H. simpl. now rewrite rev_involutive.
Qed.

Lemma trimEnd_prefix s :
  exists b, s = trimEnd s ++ b /\ Forall (fun c => isWhiteSpace c = true) b.
Proof.
  destruct (trimStart_suffix (rev s)) as (a & Ha & Hws).
  exists (rev a). split; [|now apply Forall_rev].
  unfold trimEnd. rewrite <- rev_app_distr, <- Ha. now rewrite rev_involutive.
Qed.

Lemma trimEnd_idem s : trimEnd (trimEnd s) = trimEnd s.
Proof.
  unfold trimEnd. now rewrite rev_involutive, trimStart_idem.
Qed.

Lemma trimStart_trimEnd x :
  trimStart x = x -> trimStart (trimEnd x) = trimEnd x.
Proof.
  intros Hx. destruct (trimEnd_prefix x) as (b & Hb & _).
  destruct (trimEnd x) as [|c y]; [reflexivity|].
  rewrite Hb in Hx. simpl in Hx. simpl.
  destruct (isWhiteSpace c) eqn:E; [|reflexivity].
  exfalso. destruct (trimStart_suffix (y ++ b)) as (a & Ha & _).
  rewrite Hx in Ha.
  apply (f_equal (@length char)) in Ha.
  rewrite !length_app in Ha. simpl in Ha. rewrite !length_app in Ha. lia.
Qed.

Lemma trim_idem s : trim (trim s) = trim s.
Proof.
  unfold trim at 1.
  assert (H : trimStart (trim s) = trim s).
  { unfold trim. apply trimStart_trimEnd, trimStart_idem. }
  rewrite H. unfold trim. apply trimEnd_idem.
Qed.

Lemma trim_surrounded a c x d b :
  Forall (fun e => isWhiteSpace e = true) a ->
  Forall (fun e => isWhiteSpace e = true) b ->
  isWhiteSpace c = false -> isWhiteSpace d = false ->
  trim (a ++ (c :: x ++ [d]) ++ b) = c :: x ++ [d].
Proof.
  intros Ha Hb Hc Hd. unfold trim.
  rewrite trimStart_ws by assumption.
  simpl app. rewrite trimStart_head by assumption.
  change (c :: (x ++ [d]) ++ b) with ((c :: x ++ [d]) ++ b).
  rewrite trimEnd_ws by assumption.
  change (c :: x ++ [d]) with ((c :: x) ++ [d]).
  now apply trimEnd_last.
Qed.

Lemma trim_ws_end s b :
  Forall (fun c => isWhiteSpace c = true) b -> trim (s ++ b) = trim s.
Proof.
  intros Hb. unfold trim.
  destruct (trimStart_suffix s) as (a & Ha & Hws).
  rewrite Ha at 1. rewrite <- app_assoc, trimStart_ws by assumption.
  destruct (trimStart s) as [|c y] eqn:E.
  - simpl. rewrite <- (app_nil_r b).
    rewrite trimStart_ws by assumption. reflexivity.
  - assert (Hc : isWhiteSpace c = false).
    { destruct (isWhiteSpace c) eqn:Hc; [|reflexivity].
      pose proof (trimStart_idem s) as Hi. rewrite E in Hi. simpl in Hi.
      rewrite Hc in Hi.
      destruct (trimStart_suffix y) as (a' & Ha' & _).
      rewrite Hi in Ha'. apply (f_equal (@length char)) in Ha'.
      rewrite !length_app in Ha'. simpl in Ha'. lia. }
    simpl app. rewrite trimStart_head by assumption.
    change (c :: y ++ b) with ((c :: y) ++ b).
    now apply trimEnd_ws.
Qed.

(** ** cleanMarkdownFormatting *)

Lemma startsWith_pattern_prefix p q : forall s,
  startsWith s (p ++ q) = true -> startsWith s p = true.
Proof.
  induction p as [|a p IH]; intros s H; [now destruct s|].
  destruct s as [|c s]; simpl in *; [discriminate|].
  apply andb_prop in H as [H1 H2]. rewrite H1. simpl. now apply IH.
Qed.

Lemma includes_pattern_prefix p q s :
  includes s p = false -> includes s (p ++ q) = false.
Proof.
  induction s as [|c s IH]; cbn [includes]; intros H.
  - apply orb_false_iff in H as [H _]. rewrite orb_false_r.
    destruct (startsWith [] (p ++ q)) eqn:E; [|reflexivity].
    apply startsWith_pattern_prefix in E. congruence.
  - apply orb_false_iff in H as [H1 H2]. rewrite (IH H2), orb_false_r.
    destruct (startsWith (c :: s) (p ++ q)) eqn:E; [|reflexivity].
    apply startsWith_pattern_prefix in E. congruence.
Qed.

Lemma startsWith_text_app p : forall a b,
  startsWith a p = true -> startsWith (a ++ b) p = true.
Proof.
  induction p as [|q p IH]; intros a b H; [now destruct (a ++ b)|].
  destruct a as [|c a]; simpl in *; [discriminate|].
  apply andb_prop in H as [H1 H2]. now rewrite H1, IH.
Qed.

Lemma includes_app_false p a b :
  includes (a ++ b) p = false -> includes a p = false /\ includes b p = false.
Proof.
  induction a as [|c a IH]; intros H.
  - split; [|exact H]. cbn [includes]. rewrite orb_false_r.
    destruct (startsWith [] p) eqn:E; [|reflexivity].
    apply (startsWith_text_app p [] b) in E. simpl app in *.
    destruct b; cbn [includes] in H; rewrite E in H; discriminate.
  - change ((c :: a) ++ b) with (c :: a ++ b) in H.
    cbn [includes] in *.
    apply orb_false_iff in H as [H1 H2].
    destruct (IH H2) as [Ha Hb]. split; [|exact Hb].
    rewrite Ha, orb_false_r.
    destruct (startsWith (c :: a) p) eqn:E; [|reflexivity].
    apply (startsWith_text_app p (c :: a) b) in E.
    change ((c :: a) ++ b) with (c :: a ++ b) in E. congruence.
Qed.

Lemma includes_trim p s : includes s p = false -> includes (trim s) p = false.
Proof.
  intros H. unfold trim.
  destruct (trimStart_suffix s) as (a & Ha & _).
  destruct (trimEnd_prefix (trimStart s)) as (b & Hb & _).
  rewrite Ha, Hb in H.
  apply includes_app_false in H as [_ H].
  now apply includes_app_false in H as [H _].
Qed.

Lemma startsWith_across_NL p : forall a b,
  ~ In NL p -> p <> [] ->
  startsWith (a ++ NL :: b) p = startsWith a p.
Proof.
  induction p as [|q p IH]; intros a b Hnl Hne; [congruence|].
  destruct a as [|c a]; cbn [startsWith app].
  - destruct (NL =? q)%N eqn:E; [|reflexivity].
    apply N.eqb_eq in E. elim Hnl. now left.
  - destruct p as [|q' p']; [now destruct (a ++ NL :: b), a|].
    rewrite IH; [reflexivity | intros H; apply Hnl; now right | discriminate].
Qed.

Lemma includes_across_NL p a b :
  ~ In NL p -> p <> [] ->
  includes (a ++ NL :: b) p = includes a p || includes b p.
Proof.
  intros Hnl Hne. induction a as [|c a IH].
  - destruct p as [|q p]; [congruence|]. cbn [includes startsWith app].
    destruct (NL =? q)%N eqn:E; [|reflexivity].
    apply N.eqb_eq in E. elim Hnl. now left.
  - change (includes ((c :: a) ++ NL :: b) p)
      with (startsWith ((c :: a) ++ NL :: b) p || includes (a ++ NL :: b) p).
    rewrite startsWith_across_NL, IH by assumption.
    simpl. now rewrite orb_assoc.
Qed.

Lemma removeAtLineStart_no_match p s : forall b,
  includes s p = false -> removeAtLineStart p 0 b s = s.
Proof.
  induction s as [|c s IH]; intros b H; [reflexivity|].
  cbn [removeAtLineStart].
  cbn [includes] in H. apply orb_false_iff in H as [H1 H2].
  unfold matchLiteralOptNL. rewrite H1.
  destruct b; now rewrite IH.
Qed.

Lemma removeAtLineEnd_no_match p s :
  includes s p = false -> removeAtLineEnd p 0 s = s.
Proof.
  induction s as [|c s IH]; intros H; [reflexivity|].
  cbn [removeAtLineEnd].
  cbn [includes] in H. apply orb_false_iff in H as [H1 H2].
  rewrite H1. simpl. now rewrite IH.
Qed.

Lemma fence_no_NL : ~ In NL fence /\ fence <> [].
Proof. split; [cbv; intuition discriminate | discriminate]. Qed.

Lemma cssFence_no_NL : ~ In NL cssFence /\ cssFence <> [].
Proof. split; [cbv; intuition discriminate | discriminate]. Qed.

Lemma removeAtLineStart_closing_fence body : forall b,
  includes body fence = false ->
  removeAtLineStart fence 0 b (body ++ NL :: fence) = body ++ [NL].
Proof.
  destruct fence_no_NL as [Hnl Hne].
  induction body as [|c body IH]; intros b H.
  - destruct b; reflexivity.
  - cbn [includes] in H. apply orb_false_iff in H as [H1 H2].
    change ((c :: body) ++ NL :: fence) with (c :: body ++ NL :: fence).
    cbn [removeAtLineStart]. unfold matchLiteralOptNL.
    change (c :: body ++ NL :: fence) with ((c :: body) ++ NL :: fence).
    rewrite startsWith_across_NL, H1 by assumption.
    simpl app. destruct b; now rewrite IH.
Qed.

(** A text without three backticks in a row is only trimmed. *)
Theorem clean_without_fence (text : jsstring) :
  includes text fence = false ->
  cleanMarkdownFormatting text = trim text.
Proof.
  intros H. unfold cleanMarkdownFormatting. cbv zeta.
  apply (includes_trim fence) in H.
  assert (Hcss : includes (trim text) cssFence = false)
    by (apply (includes_pattern_prefix fence (lit "css")); exact H).
  rewrite (removeAtLineStart_no_match cssFence) by assumption.
  rewrite (removeAtLineStart_no_match fence) by assumption.
  rewrite (removeAtLineEnd_no_match fence) by assumption.
  apply trim_idem.
Qed.

Lemma clean_without_fence_witness :
  cleanMarkdownFormatting (lit " @theme { } ") = trim (lit " @theme { } ").
Proof.
  apply (clean_without_fence (lit " @theme { } ")). vm_compute. reflexivity.
Defined.

Lemma trim_fenced before opener body after o os :
  opener = o :: os -> isWhiteSpace o = false ->
  Forall (fun c => isWhiteSpace c = true) before ->
  Forall (fun c => isWhiteSpace c = true) after ->
  trim (before ++ fenced opener body ++ after) = fenced opener body.
Proof.
  intros -> Ho Hbefore Hafter.
  assert (E : fenced (o :: os) body
              = o :: (os ++ NL :: body ++ [NL; 96; 96]%N) ++ [96%N])
    by (unfold fenced, fence, lit; simpl;
        repeat (rewrite <- app_assoc; simpl); reflexivity).
  rewrite E. now apply trim_surrounded.
Qed.

(** A reply wrapped in a [```css] or a plain [```] fence, with blanks
    around it, is reduced to its trimmed body, when the body holds no
    three backticks in a row. *)
Theorem clean_unwraps_fenced_reply (before body after : jsstring) :
  Forall (fun c => isWhiteSpace c = true) before ->
  Forall (fun c => isWhiteSpace c = true) after ->
  includes body fence = false ->
  cleanMarkdownFormatting (before ++ fenced cssFence body ++ after) = trim body
  /\ cleanMarkdownFormatting (before ++ fenced fence body ++ after)
     = trim body.
Proof.
  intros Hbefore Hafter Hbody.
  destruct fence_no_NL as [Hnl Hne].
  destruct cssFence_no_NL as [Hnl' Hne'].
  assert (Hcss : includes body cssFence = false)
    by (apply (includes_pattern_prefix fence (lit "css")); exact Hbody).
  assert (Htail : includes (body ++ NL :: fence) cssFence = false).
  { rewrite includes_across_NL, Hcss by assumption. reflexivity. }
  assert (Hend : includes (body ++ [NL]) fence = false).
  { rewrite includes_across_NL, Hbody by assumption. reflexivity. }
  assert (Hfinal : trim (body ++ [NL]) = trim body).
  { apply trim_ws_end. constructor; [reflexivity | constructor]. }
  split.
  - unfold cleanMarkdownFormatting. cbv zeta.
    rewrite (trim_fenced before cssFence body after 96%N _ eq_refl)
      by (assumption || reflexivity).
    unfold fenced.
    assert (H1 : removeAtLineStart cssFence 0 true
                   (cssFence ++ NL :: body ++ NL :: fence)
                 = removeAtLineStart cssFence 0 true (body ++ NL :: fence))
      by reflexivity.
    rewrite H1, (removeAtLineStart_no_match cssFence) by assumption.
    rewrite removeAtLineStart_closing_fence by assumption.
    rewrite (removeAtLineEnd_no_match fence) by assumption.
    exact Hfinal.
  - unfold cleanMarkdownFormatting. cbv zeta.
    rewrite (trim_fenced before fence body after 96%N _ eq_refl)
      by (assumption || reflexivity).
    unfold fenced.
    rewrite (removeAtLineStart_no_match cssFence).
    + assert (H2 : removeAtLineStart fence 0 true
                     (fence ++ NL :: body ++ NL :: fence)
                   = removeAtLineStart fence 0 true (body ++ NL :: fence))
        by reflexivity.
      rewrite H2, removeAtLineStart_closing_fence by assumption.
      rewrite (removeAtLineEnd_no_match fence) by assumption.
      exact Hfinal.
    + rewrite includes_across_NL, Htail by assumption. reflexivity.
Qed.

Lemma clean_unwraps_fenced_reply_witness :
  cleanMarkdownFormatting fencedReply = lit "@theme { }".
Proof.
  apply (proj1 (clean_unwraps_fenced_reply [NL] (lit "@theme { }") [NL]
                  ltac:(constructor; [reflexivity | constructor])
                  ltac:(constructor; [reflexivity | constructor])
                  ltac:(vm_compute; reflexivity))).
Defined.

(** The result never starts or ends with white space. *)
Theorem clean_is_trimmed (text : jsstring) :
  trim (cleanMarkdownFormatting text) = cleanMarkdownFormatting text.
Proof. unfold cleanMarkdownFormatting. cbv zeta. apply trim_idem. Qed.

(** ** The workflow *)

Lemma allRuns_run {A : Type} (p : prog A) :
  forall trace post,
    allRuns p trace post ->
    forall w, post (fst (run w p trace)) (snd (run w p trace)).
Proof.
  induction p as [a|e|c k IH]; intros trace post H w; simpl in *; auto.
  apply IH. apply H.
Qed.

(** In test mode the workflow never lists or creates pull requests, and
    when it succeeds it reports the URL of the bot branch. *)
Theorem testMode_leaves_pull_requests_alone (rt : Runtime) (cfg : Config)
    (newCSS : jsstring) (w : world) :
  testMode cfg = true ->
  let out := run w (processUpdate rt cfg newCSS) [] in
  Forall (fun ev => isPullCall (fst ev) = false) (fst out)
  /\ forall url flag,
       snd out = inl (Updated url flag) -> url = treeUrl cfg /\ flag = true.
Proof.
  intros Htest out. subst out.
  apply (allRuns_run _ [] (fun trace res =>
    Forall (fun ev => isPullCall (fst ev) = false) trace
    /\ forall url flag,
         res = inl (Updated url flag) -> url = treeUrl cfg /\ flag = true)).
  exec; try congruence;
    (split; [repeat constructor
            | intros url flag H; inversion H; subst; auto; try congruence]).
Qed.

Lemma testMode_leaves_pull_requests_alone_witness :
  let out := run (quietWorld e2eDocument (lit "@theme{}"))
               (processUpdate plainRuntime (sampleConfig true) e2eDocument) []
  in
  snd out = inl (Updated (treeUrl (sampleConfig true)) true)
  /\ map fst (fst out)
     = [ReposGetBranch (lit "comfy") (lit "frontend") (lit "bot");
        ReposGetContent (lit "comfy") (lit "frontend") (lit "style.css")
          (lit "bot");
        MessagesCreate (lit "key") (lit "claude-sonnet-4-5-20250929") 8000
          (tokenSectionPrompt (Section_.content e2eSection)
             (Section_.content e2eSection));
        ReposCreateOrUpdateFileContents (lit "comfy") (lit "frontend")
          (lit "style.css") commitTitle
          (join newline [lit "@theme{}";
                         lit ".more-unrelated { color: green; }"])
          (lit "abc") (lit "bot")]
  /\ Forall (fun ev => isPullCall (fst ev) = false) (fst out)
  /\ forall url flag,
       snd out = inl (Updated url flag) ->
       url = treeUrl (sampleConfig true) /\ flag = true.
Proof.
  intros out.
  split; [vm_compute; reflexivity|]. split; [vm_compute; reflexivity|].
  apply (testMode_leaves_pull_requests_alone plainRuntime (sampleConfig true)
           e2eDocument (quietWorld e2eDocument (lit "@theme{}"))).
  reflexivity.
Defined.

(** Whatever the collaborators answer, every ref the workflow creates,
    every commit and every pull request it opens is aimed at the bot branch
    of the configuration. *)
Theorem writes_go_to_the_bot_branch (rt : Runtime) (cfg : Config)
    (newCSS : jsstring) (w : world) :
  Forall (fun ev => writesToBotBranch cfg (fst ev))
    (fst (run w (processUpdate rt cfg newCSS) [])).
Proof.
  apply (allRuns_run _ [] (fun trace _ =>
    Forall (fun ev => writesToBotBranch cfg (fst ev)) trace)).
  exec; repeat constructor.
Qed.

(** When the file fetched from the repository or the incoming CSS has no
    token section, the workflow fails without calling the completion API,
    without committing and without touching pull requests; unless a call
    was rejected on the way, the error names the document at fault, the
    old one first. *)
Theorem missing_section_stops_the_workflow (rt : Runtime) (cfg : Config)
    (newCSS : jsstring) (w : world) :
  let out := run w (processUpdate rt cfg newCSS) [] in
  forall owner repo path ref data,
    In (ReposGetContent owner repo path ref, RFile data) (fst out) ->
    extractDesignTokenSection (fromBase64 rt (dataContent data)) = None
    \/ extractDesignTokenSection newCSS = None ->
    Forall (fun ev => isMergeCall (fst ev) = false
                      /\ isCommit (fst ev) = false
                      /\ isPullCall (fst ev) = false) (fst out)
    /\ (exists msg, snd out = inl (Failed msg))
    /\ (endsWithRejection (fst out) = false ->
        snd out
        = inl (Failed
                 match extractDesignTokenSection
                         (fromBase64 rt (dataContent data)) with
                 | None => missingOldSection
                 | Some _ => missingNewSection
                 end)).
Proof.
  intros out. subst out.
  apply (allRuns_run _ [] (fun trace res =>
    forall owner repo path ref data,
      In (ReposGetContent owner repo path ref, RFile data) trace ->
      extractDesignTokenSection (fromBase64 rt (dataContent data)) = None
      \/ extractDesignTokenSection newCSS = None ->
      Forall (fun ev => isMergeCall (fst ev) = false
                        /\ isCommit (fst ev) = false
                        /\ isPullCall (fst ev) = false) trace
      /\ (exists msg, res = inl (Failed msg))
      /\ (endsWithRejection trace = false ->
          res
          = inl (Failed
                   match extractDesignTokenSection
                           (fromBase64 rt (dataContent data)) with
                   | None => missingOldSection
                   | Some _ => missingNewSection
                   end)))).
  exec; intros owner repo path ref data Hin Hmissing; in_trace Hin;
    try (destruct Hmissing; congruence);
    (split; [repeat constructor|]);
    (split; [eexists; reflexivity|]);
    intros Hlast; try discriminate Hlast;
    repeat match goal with
           | H : extractDesignTokenSection _ = _ |- _ => rewrite H
           end; reflexivity.
Qed.

Lemma missing_section_stops_the_workflow_witness :
  let out := run (quietWorld rootOnlyDocument [])
               (processUpdate plainRuntime (sampleConfig false) e2eDocument)
               [] in
  snd out = inl (Failed missingOldSection)
  /\ Forall (fun ev => isMergeCall (fst ev) = false
                       /\ isCommit (fst ev) = false
                       /\ isPullCall (fst ev) = false) (fst out).
Proof.
  intros out.
  destruct (missing_section_stops_the_workflow plainRuntime
              (sampleConfig false) e2eDocument (quietWorld rootOnlyDocument [])
              (lit "comfy") (lit "frontend") (lit "style.css") (lit "bot")
              (mkFileData rootOnlyDocument (lit "abc")))
    as (Hquiet & _ & Hmsg).
  - vm_compute. right. left. reflexivity.
  - left. vm_compute. reflexivity.
  - split; [|exact Hquiet].
    apply Hmsg. vm_compute. reflexivity.
Defined.

Lemma strictEq_refl s : strictEq s s = true.
Proof. unfold strictEq. destruct (list_eq_dec N.eq_dec s s); congruence. Qed.

Lemma strictEq_false a b : strictEq a b = false -> a <> b.
Proof.
  unfold strictEq. destruct (list_eq_dec N.eq_dec a b); [discriminate | auto].
Qed.

Lemma extract_content_splices css r :
  extractDesignTokenSection css = Some r ->
  replaceLines css (Section_.startLine r) (Section_.endLine r)
    (Section_.content r) = Ok css.
Proof.
  intros Hr.
  destruct (extract_some css r Hr)
    as (pre & line & post & st & Hsplit & _ & _ & _ & He & Hlo & Hhi & _
        & Hshape).
  assert (Heq : Section_.content r
                = sliceLines css (Section_.startLine r) (Section_.endLine r))
    by (rewrite Hshape; reflexivity).
  rewrite Heq. apply replaceLines_sliceLines; try lia.
  unfold lineCount. rewrite Hsplit, length_app. simpl. lia.
Qed.

(** When the reply of the completion API, once cleaned, is the token
    section of the fetched file as it stands, the workflow reports that
    nothing changed and neither commits nor touches pull requests. *)
Theorem unchanged_section_commits_nothing (rt : Runtime) (cfg : Config)
    (newCSS : jsstring) (w : world) :
  let out := run w (processUpdate rt cfg newCSS) [] in
  forall owner repo path ref data apiKey model n prompt text old,
    In (ReposGetContent owner repo path ref, RFile data) (fst out) ->
    In (MessagesCreate apiKey model n prompt, RText text) (fst out) ->
    extractDesignTokenSection (fromBase64 rt (dataContent data)) = Some old ->
    cleanMarkdownFormatting text = Section_.content old ->
    snd out = inl (NoChanges (lit "No changes detected in design tokens"))
    /\ Forall (fun ev => isCommit (fst ev) = false
                         /\ isPullCall (fst ev) = false) (fst out).
Proof.
  intros out. subst out.
  apply (allRuns_run _ [] (fun trace res =>
    forall owner repo path ref data apiKey model n prompt text old,
      In (ReposGetContent owner repo path ref, RFile data) trace ->
      In (MessagesCreate apiKey model n prompt, RText text) trace ->
      extractDesignTokenSection (fromBase64 rt (dataContent data)) = Some old ->
      cleanMarkdownFormatting text = Section_.content old ->
      res = inl (NoChanges (lit "No changes detected in design tokens"))
      /\ Forall (fun ev => isCommit (fst ev) = false
                           /\ isPullCall (fst ev) = false) trace)).
  exec;
    intros owner repo path ref data apiKey model n prompt text old
      Hfile Hreply Hold Hclean;
    in_trace Hfile; in_trace Hreply;
    try (split; [reflexivity | repeat constructor]);
    exfalso;
    match goal with
    | Hr : replaceLines _ _ _ _ = _ |- _ =>
        rewrite Hclean in Hr;
        pose proof (extract_content_splices _ _ Hold) as Hback;
        rewrite Hold in *;
        match goal with
        | Hs : Some _ = Some _ |- _ => inversion Hs; subst; clear Hs
        end;
        rewrite Hback in Hr;
        inversion Hr; subst
    end;
    match goal with
    | Hq : strictEq ?a ?a = false |- _ => rewrite strictEq_refl in Hq
    end;
    discriminate.
Qed.

Lemma unchanged_section_commits_nothing_witness :
  let out := run (quietWorld e2eDocument (Section_.content e2eSection))
               (processUpdate plainRuntime (sampleConfig false) e2eDocument)
               [] in
  snd out = inl (NoChanges (lit "No changes detected in design tokens"))
  /\ Forall (fun ev => isCommit (fst ev) = false
                       /\ isPullCall (fst ev) = false) (fst out).
Proof.
  apply (unchanged_section_commits_nothing plainRuntime (sampleConfig false)
           e2eDocument (quietWorld e2eDocument (Section_.content e2eSection))
           (lit "comfy") (lit "frontend") (lit "style.css") (lit "bot")
           (mkFileData e2eDocument (lit "abc"))
           (lit "key") (lit "claude-sonnet-4-5-20250929") 8000
           (tokenSectionPrompt (Section_.content e2eSection)
              (Section_.content e2eSection))
           (Section_.content e2eSection) e2eSection).
  - vm_compute. right. left. reflexivity.
  - vm_compute. right. right. left. reflexivity.
  - vm_compute. reflexivity.
  - vm_compute. reflexivity.
Defined.

Lemma extract_replaceLines css r X :
  extractDesignTokenSection css = Some r ->
  replaceLines css (Section_.startLine r) (Section_.endLine r) X
  = Ok (join newline
          (splicedLines css (Section_.startLine r) (Section_.endLine r) X)).
Proof.
  intros Hr.
  destruct (extract_some css r Hr)
    as (pre & line & post & st & Hsplit & _ & _ & _ & He & Hlo & Hhi & _).
  apply replaceLines_valid; try lia.
  unfold lineCount. rewrite Hsplit, length_app. simpl. lia.
Qed.

(** Whatever is committed is the fetched file with the lines of its token
    section replaced by the cleaned reply of the completion API, which was
    asked to merge the section of the fetched file with the section of
    the incoming CSS; it is committed against the sha the file was fetched
    with, and only when it differs from the fetched file. *)
Theorem commit_is_the_spliced_file (rt : Runtime) (cfg : Config)
    (newCSS : jsstring) (w : world) :
  let out := run w (processUpdate rt cfg newCSS) [] in
  forall owner repo path message committed fileSha branch rep,
    In (ReposCreateOrUpdateFileContents owner repo path message committed
          fileSha branch, rep) (fst out) ->
    exists ref data oldSection newSection text,
      In (ReposGetContent (githubOwner cfg) (githubRepo cfg)
            (targetFilePath cfg) ref, RFile data) (fst out)
      /\ extractDesignTokenSection (fromBase64 rt (dataContent data))
         = Some oldSection
      /\ extractDesignTokenSection newCSS = Some newSection
      /\ In (MessagesCreate (anthropicApiKey cfg)
               (lit "claude-sonnet-4-5-20250929") 8000
               (tokenSectionPrompt (Section_.content oldSection)
                  (Section_.content newSection)), RText text) (fst out)
      /\ fileSha = dataSha data
      /\ committed
         = toBase64 rt
             (join newline
                (splicedLines (fromBase64 rt (dataContent data))
                   (Section_.startLine oldSection)
                   (Section_.endLine oldSection)
                   (cleanMarkdownFormatting text)))
      /\ join newline
           (splicedLines (fromBase64 rt (dataContent data))
              (Section_.startLine oldSection) (Section_.endLine oldSection)
              (cleanMarkdownFormatting text))
         <> fromBase64 rt (dataContent data).
Proof.
  intros out. subst out.
  apply (allRuns_run _ [] (fun trace res =>
    forall owner repo path message committed fileSha branch rep,
      In (ReposCreateOrUpdateFileContents owner repo path message committed
            fileSha branch, rep) trace ->
      exists ref data oldSection newSection text,
        In (ReposGetContent (githubOwner cfg) (githubRepo cfg)
              (targetFilePath cfg) ref, RFile data) trace
        /\ extractDesignTokenSection (fromBase64 rt (dataContent data))
           = Some oldSection
        /\ extractDesignTokenSection newCSS = Some newSection
        /\ In (MessagesCreate (anthropicApiKey cfg)
                 (lit "claude-sonnet-4-5-20250929") 8000
                 (tokenSectionPrompt (Section_.content oldSection)
                    (Section_.content newSection)), RText text) trace
        /\ fileSha = dataSha data
        /\ committed
           = toBase64 rt
               (join newline
                  (splicedLines (fromBase64 rt (dataContent data))
                     (Section_.startLine oldSection)
                     (Section_.endLine oldSection)
                     (cleanMarkdownFormatting text)))
        /\ join newline
             (splicedLines (fromBase64 rt (dataContent data))
                (Section_.startLine oldSection) (Section_.endLine oldSection)
                (cleanMarkdownFormatting text))
           <> fromBase64 rt (dataContent data))).
  exec; intros owner repo path message committed fileSha branch rep Hin;
    in_trace Hin;
    match goal with
    | Hs : extractDesignTokenSection (fromBase64 _ _) = Some ?old,
      Hr : replaceLines _ _ _ ?X = Ok ?v,
      Hq : strictEq ?v _ = false |- _ =>
        rewrite (extract_replaceLines _ old X Hs) in Hr;
        inversion Hr; subst; clear Hr;
        apply strictEq_false in Hq
    end;
    do 5 eexists;
    (split; [find_event|]);
    (split; [eassumption|]);
    (split; [first [eassumption | reflexivity]|]);
    (split; [find_event|]);
    (split; [reflexivity|]);
    (split; [reflexivity | assumption]).
Qed.

Lemma commit_is_the_spliced_file_witness :
  let out := run (quietWorld e2eDocument (lit "@theme{}"))
               (processUpdate plainRuntime (sampleConfig true) e2eDocument) []
  in
  exists ref data oldSection newSection text,
    In (ReposGetContent (lit "comfy") (lit "frontend") (lit "style.css") ref,
        RFile data) (fst out)
    /\ extractDesignTokenSection (dataContent data) = Some oldSection
    /\ extractDesignTokenSection e2eDocument = Some newSection
    /\ In (MessagesCreate (lit "key") (lit "claude-sonnet-4-5-20250929") 8000
             (tokenSectionPrompt (Section_.content oldSection)
                (Section_.content newSection)), RText text) (fst out)
    /\ lit "abc" = dataSha data
    /\ join newline [lit "@theme{}"; lit ".more-unrelated { color: green; }"]
       = join newline
           (splicedLines (dataContent data) (Section_.startLine oldSection)
              (Section_.endLine oldSection) (cleanMarkdownFormatting text))
    /\ join newline
         (splicedLines (dataContent data) (Section_.startLine oldSection)
            (Section_.endLine oldSection) (cleanMarkdownFormatting text))
       <> dataContent data.
Proof.
  apply (commit_is_the_spliced_file plainRuntime (sampleConfig true)
           e2eDocument (quietWorld e2eDocument (lit "@theme{}"))
           (lit "comfy") (lit "frontend") (lit "style.css") commitTitle
           (join newline [lit "@theme{}";
                          lit ".more-unrelated { color: green; }"])
           (lit "abc") (lit "bot") RNothing).
  vm_compute. right. right. right. left. reflexivity.
Defined.

(** A pull request is created only outside test mode and only after the
    list of open pull requests from the bot branch into [main] came back
    empty; a success reports the URL of the first listed pull request, or
    of the one just created, or of the bot branch in test mode, and is
    reported only after the commit went through. *)
Theorem pull_request_is_reused (rt : Runtime) (cfg : Config)
    (newCSS : jsstring) (w : world) :
  let out := run w (processUpdate rt cfg newCSS) [] in
  let listing :=
    PullsList (githubOwner cfg) (githubRepo cfg)
      (githubOwner cfg ++ lit ":" ++ botBranch cfg) (lit "main") (lit "open")
  in
  (forall owner repo title head base body rep,
      In (PullsCreate owner repo title head base body, rep) (fst out) ->
      testMode cfg = false /\ In (listing, RPulls []) (fst out))
  /\ (forall url flag,
        snd out = inl (Updated url flag) ->
        flag = testMode cfg
        /\ (exists committed fileSha,
              In (ReposCreateOrUpdateFileContents (githubOwner cfg)
                    (githubRepo cfg) (targetFilePath cfg) commitTitle
                    committed fileSha (botBranch cfg), RNothing) (fst out))
        /\ ((testMode cfg = true /\ url = treeUrl cfg)
            \/ (exists first rest,
                  In (listing, RPulls (first :: rest)) (fst out)
                  /\ url = pullHtmlUrl first)
            \/ (exists pr,
                  In (PullsCreate (githubOwner cfg) (githubRepo cfg)
                        commitTitle (botBranch cfg) (lit "main") commitTitle,
                      RPull pr) (fst out)
                  /\ url = pullHtmlUrl pr))).
Proof.
  intros out listing. subst out listing.
  apply (allRuns_run _ [] (fun trace res =>
    (forall owner repo title head base body rep,
        In (PullsCreate owner repo title head base body, rep) trace ->
        testMode cfg = false
        /\ In (PullsList (githubOwner cfg) (githubRepo cfg)
                 (githubOwner cfg ++ lit ":" ++ botBranch cfg) (lit "main")
                 (lit "open"), RPulls []) trace)
    /\ (forall url flag,
          res = inl (Updated url flag) ->
          flag = testMode cfg
          /\ (exists committed fileSha,
                In (ReposCreateOrUpdateFileContents (githubOwner cfg)
                      (githubRepo cfg) (targetFilePath cfg) commitTitle
                      committed fileSha (botBranch cfg), RNothing) trace)
          /\ ((testMode cfg = true /\ url = treeUrl cfg)
              \/ (exists first rest,
                    In (PullsList (githubOwner cfg) (githubRepo cfg)
                          (githubOwner cfg ++ lit ":" ++ botBranch cfg)
                          (lit "main") (lit "open"),
                        RPulls (first :: rest)) trace
                    /\ url = pullHtmlUrl first)
              \/ (exists pr,
                    In (PullsCreate (githubOwner cfg) (githubRepo cfg)
                          commitTitle (botBranch cfg) (lit "main")
                          commitTitle, RPull pr) trace
                    /\ url = pullHtmlUrl pr))))).
  exec; (split;
    [ intros owner repo title head base body rep Hin; in_trace Hin;
      (split; [assumption || reflexivity | find_event])
    | intros url flag Hres; try discriminate Hres;
      inversion Hres; subst; clear Hres;
      (split; [reflexivity || (symmetry; assumption)|]);
      (split; [do 2 eexists; find_event|]);
      first [ left; split; [assumption || reflexivity | reflexivity]
            | right; left; do 2 eexists; split; [find_event | reflexivity]
            | right; right; eexists; split; [find_event | reflexivity] ] ]).
Qed.

Lemma pull_request_is_reused_witness :
  let out := run (quietWorld e2eDocument (lit "@theme{}"))
               (processUpdate plainRuntime (sampleConfig false) e2eDocument) []
  in
  snd out = inl (Updated (lit "pr-url") false)
  /\ In (PullsList (lit "comfy") (lit "frontend")
           (lit "comfy" ++ lit ":" ++ lit "bot") (lit "main") (lit "open"),
         RPulls []) (fst out).
Proof.
  intros out. split; [vm_compute; reflexivity|].
  apply (proj1 (pull_request_is_reused plainRuntime (sampleConfig false)
                  e2eDocument (quietWorld e2eDocument (lit "@theme{}")))
           (lit "comfy") (lit "frontend") commitTitle (lit "bot") (lit "main")
           commitTitle (RPull (mkPullData 7 (lit "pr-url")))).
  vm_compute. do 5 right. left. reflexivity.
Defined.

(** A rejected call stops the workflow.  When a call is rejected with an
    error object (a value carrying a [message], as every rejection of the
    model is), other than the branch probe rejected with status 404, that
    call is the last call of the run, and [processUpdate] returns the
    failure carrying the message of that error. *)
Theorem rejection_ends_the_run (rt : Runtime) (cfg : Config)
    (newCSS : jsstring) (w : world) :
  let out := run w (processUpdate rt cfg newCSS) [] in
  forall c e,
    In (c, RError e) (fst out) ->
    ~ (isBranchProbe c = true /\ errStatus e = Some 404) ->
    (exists before, fst out = before ++ [(c, RError e)])
    /\ snd out = inl (Failed (errMessage e)).
Proof.
  intros out. subst out.
  apply (allRuns_run _ [] (fun trace res =>
    forall c e,
      In (c, RError e) trace ->
      ~ (isBranchProbe c = true /\ errStatus e = Some 404) ->
      (exists before, trace = before ++ [(c, RError e)])
      /\ res = inl (Failed (errMessage e)))).
  exec;
    intros ?c ?e Hin Hnot; in_trace Hin;
    first
      [ solve [ split; [|reflexivity];
                match goal with
                | |- exists before, ?t = _ =>
                    exists (removelast t); reflexivity
                end ]
      | exfalso; apply Hnot; split; [reflexivity|];
        match goal with
        | Hz : (_ =? 404) = true |- _ => apply Z.eqb_eq in Hz; subst
        end; assumption ].
Qed.

Lemma rejection_ends_the_run_witness :
  let out := run failingWorld
               (processUpdate plainRuntime (sampleConfig false) e2eDocument) []
  in
  (exists before,
      fst out
      = before ++ [(ReposGetBranch (lit "comfy") (lit "frontend") (lit "bot"),
                    RError (mkError (Some 500) (lit "boom")))])
  /\ snd out = inl (Failed (lit "boom")).
Proof.
  apply (rejection_ends_the_run plainRuntime (sampleConfig false)
           e2eDocument failingWorld).
  - vm_compute. left. reflexivity.
  - intros [_ H]. discriminate H.
Defined.

(** The branch probe decides where the file is read: from the bot branch
    when it exists, and then no ref is read or created; from [main] when
    the probe is rejected and the run goes on (status 404), and then a ref
    is only created at the sha read from [heads/main]. *)
Theorem branch_probe_decides_the_source (rt : Runtime) (cfg : Config)
    (newCSS : jsstring) (w : world) :
  let out := run w (processUpdate rt cfg newCSS) [] in
  let probe :=
    ReposGetBranch (githubOwner cfg) (githubRepo cfg) (botBranch cfg) in
  (In (probe, RNothing) (fst out) ->
   Forall (fun ev => isRefCall (fst ev) = false) (fst out)
   /\ forall owner repo path ref rep,
        In (ReposGetContent owner repo path ref, rep) (fst out) ->
        path = targetFilePath cfg /\ ref = botBranch cfg)
  /\ (forall e,
        In (probe, RError e) (fst out) ->
        (forall owner repo path ref rep,
            In (ReposGetContent owner repo path ref, rep) (fst out) ->
            path = targetFilePath cfg /\ ref = lit "main")
        /\ (forall owner repo ref sha rep,
              In (GitCreateRef owner repo ref sha, rep) (fst out) ->
              In (GitGetRef (githubOwner cfg) (githubRepo cfg)
                    (lit "heads/" ++ lit "main"), RSha sha) (fst out))).
Proof.
  intros out probe. subst out probe.
  apply (allRuns_run _ [] (fun trace res =>
    (In (ReposGetBranch (githubOwner cfg) (githubRepo cfg) (botBranch cfg),
         RNothing) trace ->
     Forall (fun ev => isRefCall (fst ev) = false) trace
     /\ forall owner repo path ref rep,
          In (ReposGetContent owner repo path ref, rep) trace ->
          path = targetFilePath cfg /\ ref = botBranch cfg)
    /\ (forall e,
          In (ReposGetBranch (githubOwner cfg) (githubRepo cfg)
                (botBranch cfg), RError e) trace ->
          (forall owner repo path ref rep,
              In (ReposGetContent owner repo path ref, rep) trace ->
              path = targetFilePath cfg /\ ref = lit "main")
          /\ (forall owner repo ref sha rep,
                In (GitCreateRef owner repo ref sha, rep) trace ->
                In (GitGetRef (githubOwner cfg) (githubRepo cfg)
                      (lit "heads/" ++ lit "main"), RSha sha) trace)))).
  exec; (split;
    [ intros Hprobe; in_trace Hprobe;
      (split; [repeat constructor|]);
      intros owner repo path ref rep Hin; in_trace Hin; split; reflexivity
    | intros ?e Hprobe; in_trace Hprobe;
      (split;
         [ intros owner repo path ref rep Hin; in_trace Hin; split; reflexivity
         | intros owner repo ref sha rep Hin; in_trace Hin; find_event ]) ]).
Qed.

Lemma branch_probe_decides_the_source_witness :
  let out := run (quietWorld e2eDocument (lit "@theme{}"))
               (processUpdate plainRuntime (sampleConfig true) e2eDocument) []
  in
  Forall (fun ev => isRefCall (fst ev) = false) (fst out)
  /\ forall owner repo path ref rep,
       In (ReposGetContent owner repo path ref, rep) (fst out) ->
       path = lit "style.css" /\ ref = lit "bot".
Proof.
  apply (proj1 (branch_probe_decides_the_source plainRuntime
                  (sampleConfig true) e2eDocument
                  (quietWorld e2eDocument (lit "@theme{}")))).
  vm_compute. left. reflexivity.
Defined.

(** A run makes at most eight calls, among them at most one commit, one
    request to the completion API and one pull request creation. *)
Theorem run_is_bounded (rt : Runtime) (cfg : Config) (newCSS : jsstring)
    (w : world) :
  let calls := map fst (fst (run w (processUpdate rt cfg newCSS) [])) in
  (length calls <= 8)%nat
  /\ (length (filter isCommit calls) <= 1)%nat
  /\ (length (filter isMergeCall calls) <= 1)%nat
  /\ (length (filter (fun c => match c with
                               | PullsCreate _ _ _ _ _ _ => true
                               | _ => false
                               end) calls) <= 1)%nat.
Proof.
  intros calls. subst calls.
  apply (allRuns_run _ [] (fun trace _ =>
    (length (map fst trace) <= 8)%nat
    /\ (length (filter isCommit (map fst trace)) <= 1)%nat
    /\ (length (filter isMergeCall (map fst trace)) <= 1)%nat
    /\ (length (filter (fun c => match c with
                                 | PullsCreate _ _ _ _ _ _ => true
                                 | _ => false
                                 end) (map fst trace)) <= 1)%nat)).
  exec; simpl; lia.
Qed.

(** ** extractThemeBlocks: where a block is emitted *)

Lemma themeBlocksLoop_app a : forall b i st,
  themeBlocksLoop (a ++ b) i st
  = themeBlocksLoop b (i + Z.of_nat (length a)) (themeBlocksLoop a i st).
Proof.
  induction a as [|x a IH]; intros b i st.
  - simpl. now rewrite Z.add_0_r.
  - cbn [app themeBlocksLoop length]. rewrite IH. f_equal. lia.
Qed.

Lemma themeBlocksLoop_no_anchor pre : forall i st,
  Scan.inBlock st = false ->
  Forall (fun l => startsWith (trim l) (lit "@theme") = false) pre ->
  themeBlocksLoop pre i st = st.
Proof.
  induction pre as [|x pre IH]; intros i st Hin Hall; [reflexivity|].
  inversion Hall as [|? ? Hx Hpre]; subst.
  cbn [themeBlocksLoop].
  assert (Hstep : themeBlocksStep st (i + 1) x = st).
  { unfold themeBlocksStep. now rewrite Hin, Hx. }
  rewrite Hstep. now apply IH.
Qed.

Lemma themeBlocksLoop_open body : forall i st,
  Scan.inBlock st = true -> Scan.blockContent st <> [] ->
  (forall k, (1 <= k <= length body)%nat ->
     Scan.braceDepth st + sumDelta (firstn k body) <> 0) ->
  themeBlocksLoop body i st
  = Scan.mk (Scan.blocks st) true (Scan.blockType st) (Scan.blockStartLine st)
      (Scan.blockContent st ++ body) (Scan.braceDepth st + sumDelta body).
Proof.
  induction body as [|line rest IH]; intros i st Hin Hne Hnz.
  - simpl. rewrite app_nil_r, Z.add_0_r. destruct st. simpl in *. now subst.
  - cbn [themeBlocksLoop].
    assert (Hstep : themeBlocksStep st (i + 1) line
                    = Scan.mk (Scan.blocks st) true (Scan.blockType st)
                        (Scan.blockStartLine st) (Scan.blockContent st ++ [line])
                        (Scan.braceDepth st + braceDelta line)).
    { unfold themeBlocksStep. rewrite Hin. simpl negb. rewrite andb_false_l.
      assert (Hd : Scan.braceDepth st + matchCount LBRACE line
                   - matchCount RBRACE line
                   = Scan.braceDepth st + braceDelta line)
        by (unfold braceDelta; lia).
      rewrite Hd.
      destruct (Scan.braceDepth st + braceDelta line =? 0) eqn:E.
      - apply Z.eqb_eq in E. exfalso.
        apply (Hnz 1%nat); [simpl; lia|]. simpl. lia.
      - reflexivity. }
    rewrite Hstep, IH.
    + simpl. rewrite <- app_assoc. simpl. f_equal. lia.
    + reflexivity.
    + simpl. intros H. apply app_eq_nil in H as [_ H]. discriminate.
    + intros k Hk. simpl Scan.braceDepth.
      specialize (Hnz (S k)). simpl in Hnz.
      rewrite <- Z.add_assoc. apply Hnz. lia.
Qed.

Lemma themeBlocksStep_close st n line :
  Scan.inBlock st = true -> Scan.blockContent st <> [] ->
  Scan.braceDepth st + braceDelta line = 0 ->
  themeBlocksStep st n line
  = Scan.mk
      (Scan.blocks st
         ++ [Block.mk (Scan.blockType st) (Scan.blockStartLine st) n
               (join newline (Scan.blockContent st ++ [line]))])
      false None (Scan.blockStartLine st) [] 0.
Proof.
  intros Hin Hne Hzero. unfold themeBlocksStep.
  rewrite Hin. simpl negb. rewrite andb_false_l.
  assert (Hd : Scan.braceDepth st + matchCount LBRACE line
               - matchCount RBRACE line = 0)
    by (unfold braceDelta in Hzero; lia).
  rewrite Hd.
  assert (Hlong : (1 <? Z.of_nat (length (Scan.blockContent st ++ [line])))
                  = true).
  { apply Z.ltb_lt. rewrite length_app. simpl.
    destruct (Scan.blockContent st); [congruence | simpl; lia]. }
  now rewrite Hlong.
Qed.

Lemma themeBlocksLoop_emits st i line body last :
  Scan.inBlock st = false ->
  startsWith (trim line) (lit "@theme") = true ->
  (forall k, (1 <= k <= length body)%nat ->
     sumDelta (line :: firstn k body) <> 0) ->
  sumDelta (line :: body ++ [last]) = 0 ->
  themeBlocksLoop (line :: body ++ [last]) i st
  = Scan.mk
      (Scan.blocks st
         ++ [Block.mk (Some (labelOf line)) (i + 1)
               (i + 2 + Z.of_nat (length body))
               (join newline (line :: body ++ [last]))])
      false None (i + 1) [] 0.
Proof.
  intros Hin Hanchor Hnz Hzero.
  cbn [themeBlocksLoop].
  rewrite themeBlocksStep_anchor by assumption.
  fold (labelOf line).
  set (st1 := Scan.mk (Scan.blocks st) true (Some (labelOf line)) (i + 1)
                [line] (braceDelta line)).
  assert (Hopen : themeBlocksLoop body (i + 1) st1
                  = Scan.mk (Scan.blocks st) true (Some (labelOf line)) (i + 1)
                      ([line] ++ body) (braceDelta line + sumDelta body)).
  { apply (themeBlocksLoop_open body (i + 1) st1);
      [reflexivity | discriminate | exact Hnz]. }
  rewrite themeBlocksLoop_app, Hopen.
  cbn [themeBlocksLoop].
  rewrite themeBlocksStep_close.
  - simpl.
    replace (i + 1 + Z.of_nat (length body) + 1)
      with (i + 2 + Z.of_nat (length body)) by lia.
    reflexivity.
  - reflexivity.
  - discriminate.
  - simpl Scan.braceDepth. simpl in Hzero. rewrite sumDelta_app in Hzero.
    simpl in Hzero. lia.
Qed.

Lemma themeBlocksStep_blocks_grow st n line :
  exists more, Scan.blocks (themeBlocksStep st n line) = Scan.blocks st ++ more.
Proof.
  unfold themeBlocksStep.
  destruct (negb (Scan.inBlock st) && startsWith (trim line) (lit "@theme")).
  - exists []. simpl. now rewrite app_nil_r.
  - destruct (Scan.inBlock st).
    + destruct ((Scan.braceDepth st + matchCount LBRACE line
                 - matchCount RBRACE line =? 0)
                && (1 <? Z.of_nat (length (Scan.blockContent st ++ [line])))).
      * eexists. reflexivity.
      * exists []. simpl. now rewrite app_nil_r.
    + exists []. now rewrite app_nil_r.
Qed.

Lemma themeBlocksLoop_blocks_grow lines : forall i st,
  exists more, Scan.blocks (themeBlocksLoop lines i st) = Scan.blocks st ++ more.
Proof.
  induction lines as [|line rest IH]; intros i st.
  - exists []. simpl. now rewrite app_nil_r.
  - cbn [themeBlocksLoop].
    destruct (IH (i + 1) (themeBlocksStep st (i + 1) line)) as [m1 H1].
    destruct (themeBlocksStep_blocks_grow st (i + 1) line) as [m2 H2].
    exists (m2 ++ m1). now rewrite H1, H2, app_assoc.
Qed.

(** C3, amended: the iteration that recognises an anchor line emits
    nothing and leaves the block open, whatever the brace count of the
    line.  The block is emitted on the first later line after which the
    depth accumulated from the anchor line on is zero, with the lines up
    to that one as its content: on the next line when the two lines
    together balance, further down otherwise, and not at all when the
    document ends first.  Every emitted block ends on such a line, after
    the line it starts on. *)
Theorem anchor_line_leaves_block_open :
  (forall st n line,
      Scan.inBlock st = false ->
      startsWith (trim line) (lit "@theme") = true ->
      let st' := themeBlocksStep st n line in
      Scan.blocks st' = Scan.blocks st /\ Scan.inBlock st' = true
      /\ Scan.blockStartLine st' = n /\ Scan.blockContent st' = [line]
      /\ Scan.braceDepth st' = braceDelta line)
  /\ (forall st n line next,
      Scan.inBlock st = false ->
      startsWith (trim line) (lit "@theme") = true ->
      braceDelta line + braceDelta next = 0 ->
      Scan.blocks (themeBlocksStep (themeBlocksStep st n line) (n + 1) next)
      = Scan.blocks st
          ++ [Block.mk
                (Some (if includes line (lit "inline") then LThemeInline
                       else LTheme))
                n (n + 1) (line ++ newline ++ next)])
  /\ (forall css b,
      In b (extractThemeBlocks css) ->
      1 <= Block.startLine b /\ Block.startLine b < Block.endLine b
      /\ Block.endLine b <= lineCount css)
  /\ (forall css b,
      In b (extractThemeBlocks css) ->
      sumDelta (linesBetween (split NL css) (Block.startLine b)
                  (Block.endLine b)) = 0
      /\ forall k,
           Block.startLine b < k -> k < Block.endLine b ->
           sumDelta (linesBetween (split NL css) (Block.startLine b) k) <> 0)
  /\ (forall st i line body last,
      Scan.inBlock st = false ->
      startsWith (trim line) (lit "@theme") = true ->
      (forall k, (1 <= k <= length body)%nat ->
         sumDelta (line :: firstn k body) <> 0) ->
      sumDelta (line :: body ++ [last]) = 0 ->
      themeBlocksLoop (line :: body ++ [last]) i st
      = Scan.mk
          (Scan.blocks st
             ++ [Block.mk (Some (labelOf line)) (i + 1)
                   (i + 2 + Z.of_nat (length body))
                   (join newline (line :: body ++ [last]))])
          false None (i + 1) [] 0)
  /\ (forall css pre line body last rest,
      split NL css = pre ++ line :: body ++ last :: rest ->
      Forall (fun l => startsWith (trim l) (lit "@theme") = false) pre ->
      startsWith (trim line) (lit "@theme") = true ->
      (forall k, (1 <= k <= length body)%nat ->
         sumDelta (line :: firstn k body) <> 0) ->
      sumDelta (line :: body ++ [last]) = 0 ->
      exists more,
        extractThemeBlocks css
        = Block.mk (Some (labelOf line)) (Z.of_nat (length pre) + 1)
            (Z.of_nat (length pre) + 2 + Z.of_nat (length body))
            (join newline (line :: body ++ [last])) :: more)
  /\ (forall css pre line body,
      split NL css = pre ++ line :: body ->
      Forall (fun l => startsWith (trim l) (lit "@theme") = false) pre ->
      startsWith (trim line) (lit "@theme") = true ->
      (forall k, (1 <= k <= length body)%nat ->
         sumDelta (line :: firstn k body) <> 0) ->
      extractThemeBlocks css = []).
Proof.
  split; [|split; [|split; [|split; [|split; [|split]]]]].
  - intros st n line Hin Hanchor st'. subst st'.
    rewrite themeBlocksStep_anchor by assumption. simpl. auto.
  - intros st n line next Hin Hanchor Hzero.
    rewrite (themeBlocksStep_anchor st n line) by assumption.
    unfold themeBlocksStep at 1. simpl.
    replace (braceDelta line + matchCount LBRACE next
             - matchCount RBRACE next) with 0
      by (unfold braceDelta in *; lia).
    simpl. reflexivity.
  - exact extractThemeBlocks_spans.
  - intros css b Hb.
    destruct (extractThemeBlocks_blockOk css b Hb)
      as (_ & _ & _ & _ & _ & H1 & H2).
    split; assumption.
  - intros st i line body last. apply themeBlocksLoop_emits.
  - intros css pre line body last rest Hsplit Hpre Hanchor Hnz Hzero.
    unfold extractThemeBlocks. cbv zeta. rewrite Hsplit.
    rewrite themeBlocksLoop_app.
    rewrite (themeBlocksLoop_no_anchor pre 0 Scan.init eq_refl Hpre).
    replace (line :: body ++ last :: rest)
      with ((line :: body ++ [last]) ++ rest)
      by (simpl; rewrite <- app_assoc; reflexivity).
    rewrite themeBlocksLoop_app.
    rewrite themeBlocksLoop_emits by (reflexivity || assumption).
    match goal with
    | |- exists more, Scan.blocks (themeBlocksLoop rest ?i ?st) = _ =>
        destruct (themeBlocksLoop_blocks_grow rest i st) as [more Hmore]
    end.
    exists more. rewrite Hmore. simpl. do 3 f_equal; lia.
  - intros css pre line body Hsplit Hpre Hanchor Hnz.
    unfold extractThemeBlocks. cbv zeta. rewrite Hsplit.
    rewrite themeBlocksLoop_app.
    rewrite (themeBlocksLoop_no_anchor pre 0 Scan.init eq_refl Hpre).
    cbn [themeBlocksLoop].
    rewrite themeBlocksStep_anchor by (reflexivity || assumption).
    rewrite themeBlocksLoop_open; [reflexivity | reflexivity | discriminate |].
    exact Hnz.
Qed.

Lemma anchor_line_leaves_block_open_witness :
  (let st' := themeBlocksStep Scan.init 1 oneLineTheme in
   Scan.blocks st' = [] /\ Scan.inBlock st' = true
   /\ Scan.blockStartLine st' = 1 /\ Scan.blockContent st' = [oneLineTheme]
   /\ Scan.braceDepth st' = braceDelta oneLineTheme)
  /\ Scan.blocks (themeBlocksStep (themeBlocksStep Scan.init 1 oneLineTheme)
                    (1 + 1) (lit ".x { }"))
     = [] ++ [Block.mk (Some LTheme) 1 (1 + 1)
                (oneLineTheme ++ newline ++ lit ".x { }")]
  /\ (forall b, In b (extractThemeBlocks oneLineThemeThenRule) ->
        1 <= Block.startLine b /\ Block.startLine b < Block.endLine b
        /\ Block.endLine b <= lineCount oneLineThemeThenRule)
  /\ (exists more,
        extractThemeBlocks e2eDocument
        = Block.mk (Some LTheme) 1 3
            (join newline [lit "@theme {"; lit "  --color-red: #ff0000;";
                           lit "}"]) :: more)
  /\ extractThemeBlocks oneLineTheme = [].
Proof.
  destruct anchor_line_leaves_block_open
    as (Hstep & Hnext & Hall & _ & _ & Hfirst & Hnone).
  split; [|split; [|split; [|split]]].
  - apply (Hstep Scan.init 1 oneLineTheme); reflexivity.
  - apply (Hnext Scan.init 1 oneLineTheme (lit ".x { }")); reflexivity.
  - apply (Hall oneLineThemeThenRule).
  - apply (Hfirst e2eDocument [] (lit "@theme {")
             [lit "  --color-red: #ff0000;"] (lit "}")
             (skipn 3 e2eLines)).
    + vm_compute. reflexivity.
    + constructor.
    + reflexivity.
    + intros k Hk. assert (k = 1%nat) by (simpl in Hk; lia). subst k.
      vm_compute. discriminate.
    + vm_compute. reflexivity.
  - apply (Hnone oneLineTheme [] oneLineTheme []).
    + vm_compute. reflexivity.
    + constructor.
    + reflexivity.
    + intros k Hk. simpl in Hk. lia.
Defined.

(** ** extractDesignTokenSection: where a section ends, in the document *)

Lemma lineAt_here pre line post :
  lineAt (pre ++ line :: post) (Z.of_nat (length pre) + 1) = Some line.
Proof.
  unfold lineAt.
  destruct (Z.of_nat (length pre) + 1 <? 1) eqn:E;
    [apply Z.ltb_lt in E; lia|].
  replace (Z.to_nat (Z.of_nat (length pre) + 1 - 1)) with (length pre) by lia.
  now rewrite nth_error_app2, Nat.sub_diag by lia.
Qed.



Lemma firstMatchFrom_app p a : forall b i,
  0 <= i ->
  firstMatchFrom p (a ++ b) i
  = if firstMatchFrom p a i =? -1
    then firstMatchFrom p b (i + Z.of_nat (length a))
    else firstMatchFrom p a i.
Proof.
  induction a as [|x a IH]; intros b i Hi.
  - simpl. now rewrite Z.add_0_r.
  - cbn [app firstMatchFrom length]. destruct (p x).
    + destruct (i + 1 =? -1) eqn:E; [apply Z.eqb_eq in E; lia | reflexivity].
    + rewrite IH by lia.
      replace (i + 1 + Z.of_nat (length a)) with (i + Z.of_nat (S (length a)))
        by lia.
      reflexivity.
Qed.

(** Line [length pre + 1] is the first match exactly when it matches and
    no earlier line does. *)
Lemma firstMatchFrom_here p pre line post :
  firstMatchFrom p (pre ++ line :: post) 0 = Z.of_nat (length pre) + 1
  <-> firstMatchFrom p pre 0 = -1 /\ p line = true.
Proof.
  rewrite firstMatchFrom_app by lia. cbn [firstMatchFrom].
  destruct (firstMatchFrom_range p pre 0 (Z.le_refl 0)) as [Hnone|Hin].
  - rewrite Hnone. simpl. destruct (p line).
    + split; [auto | lia].
    + destruct (firstMatchFrom_range p post (Z.of_nat (length pre) + 1))
        as [H|H]; [lia | |]; split; intros; try lia; intuition discriminate.
  - destruct (firstMatchFrom p pre 0 =? -1) eqn:E;
      [apply Z.eqb_eq in E; lia|].
    split; intros; lia.
Qed.

(** A match among the first lines is the first match of the document; and
    without one the first match of the document, if any, comes later. *)
Lemma firstMatchFrom_prefix p pre rest :
  (firstMatchFrom p pre 0 <> -1 ->
   firstMatchFrom p (pre ++ rest) 0 = firstMatchFrom p pre 0
   /\ 1 <= firstMatchFrom p pre 0 <= Z.of_nat (length pre))
  /\ (firstMatchFrom p pre 0 = -1 ->
      firstMatchFrom p (pre ++ rest) 0 = -1
      \/ Z.of_nat (length pre) < firstMatchFrom p (pre ++ rest) 0).
Proof.
  rewrite firstMatchFrom_app by lia.
  destruct (firstMatchFrom_range p pre 0 (Z.le_refl 0)) as [Hnone|Hin].
  - rewrite Hnone. simpl. split; [congruence|]. intros _.
    destruct (firstMatchFrom_range p rest (Z.of_nat (length pre))) as [H|H];
      [lia | now left | right; lia].
  - destruct (firstMatchFrom p pre 0 =? -1) eqn:E;
      [apply Z.eqb_eq in E; lia|].
    split; intros; lia.
Qed.


(** The [@theme] and [:root] lines recorded after some lines without
    [break] are the first such lines among them. *)
Lemma sectionPrefix_starts pre st :
  sectionPrefix pre 0 Loc.init = Some st ->
  Loc.themeStartLine st = firstMatchFrom themeLine pre 0
  /\ Loc.rootStartLine st = firstMatchFrom rootLine pre 0.
Proof.
  intros Hpre. destruct (sectionPrefix_loop _ _ _ _ Hpre) as [Hloop Hvis].
  pose proof (sectionLoop_themeStartLine pre 0 Loc.init (Z.le_refl 0)) as Ht.
  pose proof (sectionLoop_rootStartLine pre 0 Loc.init (Z.le_refl 0)) as Hr.
  rewrite Hloop, Hvis in Ht, Hr. simpl in Ht, Hr. auto.
Qed.

(** Whether the [@theme] test or the [:root] test takes a line, in terms
    of the document. *)
Lemma anchor_taken_iff pre line post st :
  sectionPrefix pre 0 Loc.init = Some st ->
  ((Loc.themeStartLine st =? -1) && themeLine line = true
   <-> firstThemeLine (pre ++ line :: post) = Z.of_nat (length pre) + 1)
  /\ ((Loc.rootStartLine st =? -1) && rootLine line = true
      <-> firstRootLine (pre ++ line :: post) = Z.of_nat (length pre) + 1).
Proof.
  intros Hpre. destruct (sectionPrefix_starts _ _ Hpre) as [Ht Hr].
  unfold firstThemeLine, firstRootLine.
  rewrite !firstMatchFrom_here, andb_true_iff, andb_true_iff, !Z.eqb_eq, Ht, Hr.
  tauto.
Qed.

Lemma sectionStep_orderOk i line st st' :
  0 <= i -> orderOk i st ->
  sectionStep st (i + 1) line = Continue st' -> orderOk (i + 1) st'.
Proof.
  intros Hi (H1 & H2 & H3). unfold orderOk.
  step_cases st line; intros H; inversion H; subst; clear H; simpl;
    (split; [lia | split; [lia|]]); intros Hk;
    try discriminate; try lia; try (destruct (H3 Hk); lia).
Qed.

Lemma sectionPrefix_orderOk lines : forall i st st',
  0 <= i -> orderOk i st ->
  sectionPrefix lines i st = Some st' ->
  orderOk (i + Z.of_nat (length lines)) st'.
Proof.
  induction lines as [|line rest IH]; intros i st st' Hi Hinv H; simpl in H.
  - injection H as <-. simpl. now rewrite Z.add_0_r.
  - destruct (sectionStep st (i + 1) line) as [st1|st1] eqn:E; [|discriminate].
    replace (i + Z.of_nat (length (line :: rest)))
      with (i + 1 + Z.of_nat (length rest)) by (simpl length; lia).
    apply (IH (i + 1) st1 st'); [lia | | assumption].
    eapply sectionStep_orderOk; eauto.
Qed.





(** The counts of the source are the numbers of braces in the text. *)
Lemma matchCount_countChar c s : matchCount c s = Z.of_nat (countChar c s).
Proof.
  unfold countChar. induction s as [|d s IH]; [reflexivity|].
  cbn [matchCount count_occ]. rewrite IH.
  destruct (N.eq_dec d c) as [E|E].
  - apply N.eqb_eq in E. rewrite E. lia.
  - apply N.eqb_neq in E. rewrite E. lia.
Qed.

Lemma sumDelta_braceBalance lines : sumDelta lines = braceBalance lines.
Proof.
  unfold braceBalance, countChar.
  induction lines as [|line rest IH]; [reflexivity|].
  cbn [sumDelta concat]. rewrite IH, !count_occ_app.
  unfold braceDelta. rewrite !matchCount_countChar. unfold countChar.
  unfold char. lia.
Qed.

Lemma balancesFirstAt_sumDelta lines d e :
  balancesFirstAt lines d e
  <-> sumDelta (linesBetween lines d e) = 0
      /\ forall k, d < k -> k < e -> sumDelta (linesBetween lines d k) <> 0.
Proof.
  unfold balancesFirstAt. rewrite sumDelta_braceBalance.
  split; intros [H1 H2]; (split; [exact H1|]); intros k Hk1 Hk2;
    [rewrite sumDelta_braceBalance | rewrite <- sumDelta_braceBalance];
    now apply H2.
Qed.





(** A returned section, in terms of the document: its recorded
    [.dark-theme] line, the line it ends on, and its [@theme] and [:root]
    lines. *)
Lemma extract_closes css r :
  extractDesignTokenSection css = Some r ->
  darkThemeClosesAt (split NL css) (Anchors.darkTheme (Section_.blocks r))
    (Section_.endLine r)
  /\ Section_.startLine r = firstThemeLine (split NL css)
  /\ Section_.startLine r < Anchors.darkTheme (Section_.blocks r)
  /\ Anchors.root (Section_.blocks r)
     = (if firstRootLine (split NL css) <? Section_.endLine r
        then firstRootLine (split NL css) else -1)
  /\ Anchors.root (Section_.blocks r) < Anchors.darkTheme (Section_.blocks r).
Proof.
  intros Hr.
  destruct (extract_some css r Hr)
    as (pre & line & post & st & Hsplit & Hpre & Hbreak & _ & He & Hlo & Hhi
        & _ & Hshape).
  set (lines := split NL css) in *.
  assert (Hinv : darkOpenOk lines (Z.of_nat (length pre)) st).
  { pose proof (sectionPrefix_darkOpenOk pre [] (line :: post) Loc.init st)
      as H.
    simpl in H. rewrite Hsplit. apply H; [discriminate | exact Hpre]. }
  assert (Hord : orderOk (Z.of_nat (length pre)) st).
  { apply (sectionPrefix_orderOk pre 0 Loc.init st); [lia | | exact Hpre].
    unfold orderOk. simpl. repeat split; try lia; discriminate. }
  destruct (sectionStep_break _ _ _ _ Hbreak)
    as (_ & _ & Hkind & Hzero & Htf & Hrf & _).
  destruct (Hinv Hkind) as (_ & H1 & H2 & Hl & Hdepth & Hnz).
  destruct Hord as (_ & _ & Hord). destruct (Hord Hkind) as [Hto Hro].
  destruct (sectionPrefix_starts _ _ Hpre) as [Hts Hrs].
  destruct (anchor_taken_iff pre line post st Hpre) as [Hti Hri].
  rewrite <- Hsplit in Hti, Hri.
  assert (Hline : lineAt lines (Z.of_nat (length pre) + 1) = Some line)
    by (rewrite Hsplit; apply lineAt_here).
  assert (Hstart : Section_.startLine r = Loc.themeStartLine st)
    by now rewrite Hshape.
  destruct (firstMatchFrom_prefix themeLine pre (line :: post))
    as [Htin _].
  destruct (firstMatchFrom_prefix rootLine pre (line :: post))
    as [Hrin Hrout].
  rewrite <- Hsplit in Htin, Hrin, Hrout.
  fold (firstThemeLine lines) in Htin.
  fold (firstRootLine lines) in Hrin, Hrout.
  assert (Htheme : firstThemeLine lines = Loc.themeStartLine st).
  { rewrite Hts. apply Htin. lia. }
  assert (Hroot : Loc.rootStartLine st <> -1 ->
                  firstRootLine lines = Loc.rootStartLine st).
  { intros Hne. rewrite Hrs. apply Hrin. congruence. }
  assert (Hnoroot : Loc.rootStartLine st = -1 ->
                    firstRootLine lines = -1
                    \/ Z.of_nat (length pre) + 1 < firstRootLine lines).
  { intros Hnone. destruct Hrout as [H|H]; [congruence | now left |].
    destruct (Z.eq_dec (firstRootLine lines) (Z.of_nat (length pre) + 1))
      as [E|E]; [|right; lia].
    apply Hri in E. rewrite E in Hrf. discriminate. }
  rewrite Hshape. simpl.
  split; [|split; [|split; [|split]]].
  - unfold darkThemeClosesAt.
    split; [lia|]. split; [lia|]. split.
    { rewrite Hsplit, length_app. simpl. lia. }
    split; [exact Hl|].
    split; [|apply balancesFirstAt_sumDelta; split].
    + intros k Hk1 Hk2. split; [lia|].
      destruct (Z.eq_dec (Loc.rootStartLine st) (-1)) as [E|E].
      * destruct (Hnoroot E); lia.
      * rewrite (Hroot E). lia.
    + rewrite (linesBetween_snoc lines _ (Z.of_nat (length pre)) line)
        by (assumption || lia).
      rewrite sumDelta_app, <- Hdepth. simpl. unfold braceDelta. lia.
    + intros k Hk1 Hk2. apply Hnz; lia.
  - congruence.
  - lia.
  - destruct (Z.eq_dec (Loc.rootStartLine st) (-1)) as [E|E].
    + rewrite E. destruct (Hnoroot E) as [H|H].
      * rewrite H.
        now destruct (-1 <? Z.of_nat (length pre) + 1).
      * destruct (firstRootLine lines <? Z.of_nat (length pre) + 1) eqn:F;
          [apply Z.ltb_lt in F; lia | reflexivity].
    + rewrite (Hroot E).
      destruct (Loc.rootStartLine st <? Z.of_nat (length pre) + 1) eqn:F;
        [reflexivity | apply Z.ltb_ge in F; lia].
  - lia.
Qed.


(** C5 as it reads fails.  On [oneLineDarkTheme] the [.dark-theme] block
    opens and closes on line 3, where its braces balance; the line of an
    anchor is never tested for the end of its block, so the section ends
    on line 4 and the rule on that line, which follows the block, is part
    of the content. *)
Lemma one_line_dark_theme_ends_a_line_late :
  let lines := split NL oneLineDarkTheme in
  extractDesignTokenSection oneLineDarkTheme = Some oneLineDarkThemeSection
  /\ lineAt lines 3 = Some (lit ".dark-theme { }")
  /\ braceBalance (linesBetween lines 3 3) = 0
  /\ Section_.endLine oneLineDarkThemeSection = 4
  /\ lineAt lines 4 = Some (lit ".x { color: red; }")
  /\ lineAt (split NL (Section_.content oneLineDarkThemeSection)) 4
     = Some (lit ".x { color: red; }").
Proof. vm_compute. repeat split; reflexivity. Qed.

(** C5, amended: a returned section ends on the first line after its
    recorded [.dark-theme] line on which the braces counted from that line
    on balance (the [.dark-theme] line itself never ends it); the loop is
    inside the [.dark-theme] block there, with the depth those braces give,
    and [break]s on that line; the content is made of lines
    [startLine..endLine] only, and whatever follows line [endLine] has no
    effect on the result. *)
Theorem section_ends_at_dark_theme_close (css : jsstring) (r : Section_.t) :
  extractDesignTokenSection css = Some r ->
  let lines := split NL css in
  let s := Section_.startLine r in
  let d := Anchors.darkTheme (Section_.blocks r) in
  let e := Section_.endLine r in
  (1 <= d /\ d < e /\ e <= Z.of_nat (length lines)
   /\ (exists line, lineAt lines d = Some line /\ darkThemeLine line = true)
   /\ balancesFirstAt lines d e)
  /\ (exists st line,
        sectionPrefix (firstn (Z.to_nat (e - 1)) lines) 0 Loc.init = Some st
        /\ lineAt lines e = Some line
        /\ Loc.inBlock st = true
        /\ Loc.currentBlockType st = Some KDarkTheme
        /\ Loc.darkThemeStartLine st = d
        /\ Loc.braceDepth st = braceBalance (linesBetween lines d (e - 1))
        /\ Loc.braceDepth st + matchCount LBRACE line - matchCount RBRACE line
           = 0
        /\ sectionStep st e line = Break (sectionLoop lines 0 Loc.init))
  /\ visitedLines lines 0 Loc.init = firstn (Z.to_nat e) lines
  /\ split NL (Section_.content r)
     = skipn (Z.to_nat (s - 1)) (firstn (Z.to_nat e) lines)
  /\ (forall css',
        firstn (Z.to_nat e) (split NL css') = firstn (Z.to_nat e) lines ->
        extractDesignTokenSection css' = Some r).
Proof.
  intros Hr lines s d e.
  destruct (extract_closes css r Hr)
    as ((Hd1 & Hde & Hlen & Hdline & _ & Hbal) & _).
  fold lines d e in Hd1, Hde, Hlen, Hdline, Hbal.
  destruct (extract_some css r Hr)
    as (pre & line & post & st & Hsplit & Hpre & Hbreak & Hvis & He & Hlo & Hhi
        & _ & Hshape).
  fold lines in Hsplit, Hbreak, Hvis.
  assert (Hs : s = Loc.themeStartLine st) by (subst s; now rewrite Hshape).
  assert (Hdst : Loc.darkThemeStartLine st = d)
    by (subst d; now rewrite Hshape).
  assert (Htake : firstn (Z.to_nat e) lines = pre ++ [line]).
  { subst e. rewrite He, Hsplit.
    replace (Z.to_nat (Z.of_nat (length pre) + 1)) with (length pre + 1)%nat
      by lia.
    now rewrite firstn_app_2. }
  assert (Hbefore : firstn (Z.to_nat (e - 1)) lines = pre).
  { subst e. rewrite He, Hsplit.
    replace (Z.to_nat (Z.of_nat (length pre) + 1 - 1))
      with (length pre + 0)%nat by lia.
    now rewrite firstn_app_2, firstn_O, app_nil_r. }
  assert (Hinv : darkOpenOk lines (Z.of_nat (length pre)) st).
  { pose proof (sectionPrefix_darkOpenOk pre [] (line :: post) Loc.init st)
      as H.
    simpl in H. rewrite Hsplit. apply H; [discriminate | exact Hpre]. }
  assert (Hresult : extractDesignTokenSection css
                    = Some (Section_.mk (Loc.themeStartLine st)
                              (Z.of_nat (length pre) + 1)
                              (join newline
                                 (skipn (Z.to_nat (Loc.themeStartLine st - 1))
                                    (pre ++ [line])))
                              (Anchors.mk (Loc.themeStartLine st)
                                 (Loc.rootStartLine st)
                                 (Loc.darkThemeStartLine st)
                                 (Z.of_nat (length pre) + 1)))).
  { eapply extract_of_break; eauto; subst s; lia. }
  split; [|split; [|split; [|split]]].
  - auto.
  - exists st, line.
    destruct (sectionStep_break _ _ _ _ Hbreak) as (_ & Hin & Hkind & Hzero & _).
    destruct (Hinv Hkind) as (_ & _ & _ & _ & Hdepth & _).
    rewrite Hbefore.
    split; [exact Hpre|]. split.
    { subst e. rewrite He, Hsplit. apply lineAt_here. }
    split; [exact Hin|]. split; [exact Hkind|]. split; [exact Hdst|].
    split.
    { rewrite Hdepth, sumDelta_braceBalance, Hdst. subst e. rewrite He.
      now replace (Z.of_nat (length pre) + 1 - 1) with (Z.of_nat (length pre))
        by lia. }
    split; [exact Hzero|].
    subst e. now rewrite He.
  - congruence.
  - rewrite Htake, Hs.
    rewrite Hr in Hresult. injection Hresult as ->. simpl.
    unfold newline. apply split_join.
    + intros H. apply (f_equal (@length jsstring)) in H.
      rewrite length_skipn, length_app in H. simpl in H. lia.
    + rewrite <- Htake.
      pose proof (Forall_firstn_skipn (sepFree NL) (Z.to_nat e) _
                    (split_sepFree NL css)) as [H _].
      now apply (Forall_firstn_skipn (sepFree NL)
                   (Z.to_nat (Loc.themeStartLine st - 1))) in H.
  - intros css' Hsame. fold lines in Htake. rewrite Htake in Hsame.
    rewrite Hr in Hresult. injection Hresult as ->.
    apply (extract_of_break css' pre line (skipn (Z.to_nat e) (split NL css'))
             st (sectionLoop lines 0 Loc.init)); auto; try lia.
    rewrite <- (firstn_skipn (Z.to_nat e) (split NL css')) at 1.
    now rewrite Hsame, <- app_assoc.
Qed.

Lemma section_ends_at_dark_theme_close_witness :
  extractDesignTokenSection oneLineDarkTheme = Some oneLineDarkThemeSection
  /\ balancesFirstAt (split NL oneLineDarkTheme) 3 4
  /\ visitedLines (split NL oneLineDarkTheme) 0 Loc.init
     = firstn 4 (split NL oneLineDarkTheme)
  /\ split NL (Section_.content oneLineDarkThemeSection)
     = skipn 0 (firstn 4 (split NL oneLineDarkTheme))
  /\ extractDesignTokenSection (oneLineDarkTheme ++ lit "
.y { }")
     = Some oneLineDarkThemeSection.
Proof.
  assert (H : extractDesignTokenSection oneLineDarkTheme
              = Some oneLineDarkThemeSection)
    by (vm_compute; reflexivity).
  split; [exact H|].
  destruct (section_ends_at_dark_theme_close oneLineDarkTheme
              oneLineDarkThemeSection H)
    as ((_ & _ & _ & _ & Hbal) & _ & Hvisited & Hcontent & Htail).
  split; [exact Hbal|]. split; [exact Hvisited|]. split; [exact Hcontent|].
  apply Htail. vm_compute. reflexivity.
Defined.





